(** * PDF comparer: label placement, page comparison and the batch run

    A shallow embedding of [src/main.py] (class [PDFComparer]) and the
    properties of its difference-annotation engine.

    Modelling conventions.
    - Python floats (coordinates, widths, the zoom factor, colour channels)
      are exact rationals [Q]; rounding, infinities and NaN are outside the
      model.  The dictionary membership test and [==] on floats are
      [Qeq_bool].
    - A pymupdf page that the code draws on is the record of the drawing
      calls made on it, in call order.
    - Local variables that the loop of [add_text_differences] may leave
      unassigned are [option]s; reading an unassigned one raises
      [UnboundLocalError].
    - The collaborators that are imported from other modules
      ([render_page_to_image], [overlay_differences], [extract_text],
      [compare_text]) and [pymupdf.get_text_length] are section variables.
    - The file system is a list of directories with their entries, a
      file being a document or a file on which [pymupdf.open] raises;
      printing and saving are events of a log, elapsed times left out.

    The definitions come first: the Python primitives, the drawing
    commands, [add_text_differences], [compare_pdfs], [run_comparison],
    the runs with relational collaborators, and sample data.  The
    properties follow, each stated on these definitions. *)

From Stdlib Require Import QArith Lqa ZArith List String Ascii Bool Lia.
Import ListNotations.

Open Scope string_scope.
Open Scope Q_scope.

(** ** Python primitives *)

Module Py.

(** The exceptions that the modelled code can raise. *)
Inductive exn : Type :=
| UnboundLocalError (name : string)
| FileNotFoundError (dir file : string)
| ValueError (msg : string)
| FileDataError (msg : string).

Inductive result (A : Type) : Type :=
| Ok (a : A)
| Raise (e : exn).
Arguments Ok {A} a.
Arguments Raise {A} e.

Definition bind {A B} (m : result A) (k : A -> result B) : result B :=
  match m with
  | Ok a => k a
  | Raise e => Raise e
  end.

(** Reading a local variable: unassigned locals raise. *)
Definition read {A} (name : string) (v : option A) : result A :=
  match v with
  | Some a => Ok a
  | None => Raise (UnboundLocalError name)
  end.

(** [a > b] on numbers. *)
Definition gt (a b : Q) : bool := negb (Qle_bool a b).

(** [a >= b] on numbers. *)
Definition ge (a b : Q) : bool := Qle_bool b a.

(** [s.startswith(p)]. *)
Definition startswith (s p : string) : bool := String.prefix p s.

(** [s[n:]]. *)
Fixpoint slice_from (n : nat) (s : string) : string :=
  match n, s with
  | O, _ => s
  | S n', String _ s' => slice_from n' s'
  | S _, EmptyString => EmptyString
  end.

(** [s.endswith(p)]. *)
Definition endswith (s p : string) : bool :=
  String.eqb (slice_from (String.length s - String.length p) s) p
  && (String.length p <=? String.length s)%nat.

(** A dictionary with float keys: insertion-ordered, keys compared
    with [==]. *)
Definition dict : Type := list (Q * Q).

Fixpoint get (d : dict) (k : Q) : option Q :=
  match d with
  | [] => None
  | (k', v) :: d' => if Qeq_bool k' k then Some v else get d' k
  end.

(** [k in d]. *)
Definition contains (d : dict) (k : Q) : bool :=
  match get d k with Some _ => true | None => false end.

(** [d[k] = v]: an existing key keeps its place (and its key object),
    a new key is appended. *)
Fixpoint set (d : dict) (k v : Q) : dict :=
  match d with
  | [] => [(k, v)]
  | (k', v') :: d' =>
      if Qeq_bool k' k then (k', v) :: d' else (k', v') :: set d' k v
  end.

End Py.

Import Py.

Notation "x <- m ;; k" := (Py.bind m (fun x => k))
  (at level 61, m at next level, right associativity).

(** ** Geometry and drawing commands *)

Definition Color : Type := (Q * Q * Q)%type.

Definition green : Color := (0, 8 # 10, 0).
Definition red : Color := (8 # 10, 0, 0).
Definition black : Color := (0, 0, 0).

(** [pymupdf.Rect(x0, y0, x1, y1)]. *)
Record Rect : Type := mkRect { x0 : Q; y0 : Q; x1 : Q; y1 : Q }.

(** pymupdf's coordinates of "the infinite rectangle". *)
Definition FZ_MIN_INF_RECT : Q := - 2147483648.
Definition FZ_MAX_INF_RECT : Q := 2147483520.

(** [Rect.is_empty] of pymupdf: [x0 >= x1 or y0 >= y1]. *)
Definition is_empty (r : Rect) : bool :=
  Py.ge (x0 r) (x1 r) || Py.ge (y0 r) (y1 r).

(** [Rect.is_infinite] of pymupdf:
    [x0 == y0 == FZ_MIN_INF_RECT and x1 == y1 == FZ_MAX_INF_RECT]. *)
Definition is_infinite (r : Rect) : bool :=
  (Qeq_bool (x0 r) (y0 r) && Qeq_bool (y0 r) FZ_MIN_INF_RECT)
  && (Qeq_bool (x1 r) (y1 r) && Qeq_bool (y1 r) FZ_MAX_INF_RECT).

(** One call [page.insert_textbox(rect, text, fontsize=..., color=...)]:
    the label command. *)
Record TextBox : Type := mkTextBox {
  tb_rect : Rect;
  tb_text : string;
  tb_fontsize : Q;
  tb_color : Color
}.

(** A PIL image: its size and its RGB samples. *)
Record Image : Type := mkImage {
  im_width : Z;
  im_height : Z;
  im_samples : list Byte.byte
}.

(** A page of the output document: its size from [new_page], the image
    stream given to [insert_image] (if any), and the [insert_textbox]
    calls in call order. *)
Record OutPage : Type := mkOutPage {
  pg_width : Z;
  pg_height : Z;
  pg_image : option Image;
  pg_textboxes : list TextBox
}.

Definition new_page (width height : Z) : OutPage :=
  mkOutPage width height None [].

Definition insert_image (page : OutPage) (stream : Image) : OutPage :=
  mkOutPage (pg_width page) (pg_height page) (Some stream) (pg_textboxes page).

Definition insert_textbox (page : OutPage) (rect : Rect) (text : string)
    (fontsize : Q) (color : Color) : OutPage :=
  mkOutPage (pg_width page) (pg_height page) (pg_image page)
            (pg_textboxes page ++ [mkTextBox rect text fontsize color])%list.

(** ** The comparer object *)

Record PDFComparer : Type := mkPDFComparer {
  old_documents_dir : string;
  new_documents_dir : string;
  output_dir : string;
  quality : Q;
  font_size : Q
}.

(** [PDFComparer.__init__]: the fields it assigns.  The stored font size
    is the base size scaled by the zoom factor. *)
Definition init (old_dir new_dir out_dir : string) (quality font_size : Q)
  : PDFComparer :=
  mkPDFComparer old_dir new_dir out_dir quality (font_size * quality).

(** The bounding box of a word: [(x0, y0, x1, y1)] in page coordinates. *)
Definition BBox : Type := (Q * Q * Q * Q)%type.

Definition bbox_0 (b : BBox) : Q := let '(a, _, _, _) := b in a.
Definition bbox_1 (b : BBox) : Q := let '(_, a, _, _) := b in a.

(** One element of [word_diffs]: [(word, bbox, change_type)]. *)
Definition WordDiff : Type := (string * BBox * string)%type.

Definition wd_word (d : WordDiff) : string := fst (fst d).
Definition wd_bbox (d : WordDiff) : BBox := snd (fst d).

(** ** Label placement: [add_text_differences] *)

(** What is live across the iterations of the loop: the two locals that
    only the prefix branches assign, the per-line dictionary and the page
    being drawn on. *)
Record Locals : Type := mkLocals {
  text_color : option Color;
  word_text : option string;
  current_x_position : Py.dict;
  page : OutPage
}.

(** What one iteration has computed when it reaches the test of line 90:
    the locals after the prefix branches, the stripped word and its width,
    the arrow call of line 84 when it was made, the position after the
    adjustment of line 86, and the rectangle of line 88. *)
Record Placement : Type := mkPlacement {
  pl_locals : Locals;
  pl_word_text : string;
  pl_text_width : Q;
  pl_arrow : option TextBox;
  pl_text_pos_x : Q;
  pl_text_pos_y : Q;
  pl_text_rect : Rect
}.

(** Replaying a recorded call on a page. *)
Definition draw (pg : OutPage) (tb : TextBox) : OutPage :=
  insert_textbox pg (tb_rect tb) (tb_text tb) (tb_fontsize tb) (tb_color tb).

Definition draw_arrow (pg : OutPage) (arrow : option TextBox) : OutPage :=
  match arrow with
  | Some a => draw pg a
  | None => pg
  end.

(** The calls that an optional arrow call stands for. *)
Definition arrow_calls (arrow : option TextBox) : list TextBox :=
  match arrow with
  | Some a => [a]
  | None => []
  end.

(** The test of line 90. *)
Definition drawable (r : Rect) : bool :=
  negb (is_infinite r) && negb (is_empty r).

Section LabelPlacer.

Variable get_text_length : string -> Q -> Q.
Variable self : PDFComparer.

(** Lines 62-67: the prefix branches. *)
Definition assign_prefix (st : Locals) (word : string) : Locals :=
  if Py.startswith word "+ " then
    mkLocals (Some green) (Some (Py.slice_from 2 word))
             (current_x_position st) (page st)
  else if Py.startswith word "- " then
    mkLocals (Some red) (Some (Py.slice_from 2 word))
             (current_x_position st) (page st)
  else st.

(** Lines 77-86: the overlap adjustment.  Returns the arrow call made when
    the labels collide, and the x position after the adjustment. *)
Definition avoid_overlap (cxp : Py.dict) (text_pos_x text_pos_y : Q)
  : option TextBox * Q :=
  if Py.contains cxp text_pos_y then
    match Py.get cxp text_pos_y with
    | Some last_x_position =>
        if Py.gt (last_x_position + get_text_length " " (font_size self))
                 text_pos_x
        then
          let arrow_text := " >" in
          let arrow_width := get_text_length arrow_text (font_size self) in
          let arrow_rect :=
            mkRect last_x_position (text_pos_y - font_size self)
                   (last_x_position + arrow_width)
                   (text_pos_y + font_size self * 2) in
          (Some (mkTextBox arrow_rect arrow_text (font_size self) black),
           last_x_position + arrow_width
           + get_text_length " " (font_size self))
        else (None, text_pos_x)
    | None => (None, text_pos_x)
    end
  else (None, text_pos_x).

(** Lines 62-88 of the loop body. *)
Definition place (st : Locals) (d : WordDiff) : Py.result Placement :=
  let '(word, bbox, change_type) := d in
  let st := assign_prefix st word in
  w <- Py.read "word_text" (word_text st) ;;
  let text_width := get_text_length w (font_size self) in
  let text_pos_x := bbox_0 bbox * quality self in
  let text_pos_y := bbox_1 bbox * quality self in
  let '(arrow, text_pos_x) :=
    avoid_overlap (current_x_position st) text_pos_x text_pos_y in
  let text_rect :=
    mkRect text_pos_x (text_pos_y - font_size self)
           (text_pos_x + text_width) (text_pos_y + font_size self * 2) in
  Ok (mkPlacement st w text_width arrow text_pos_x text_pos_y text_rect).

(** Lines 90-92 of the loop body, after the arrow call (if any). *)
Definition commit (p : Placement) : Py.result Locals :=
  let st := pl_locals p in
  let pg := draw_arrow (page st) (pl_arrow p) in
  if drawable (pl_text_rect p) then
    c <- Py.read "text_color" (text_color st) ;;
    Ok (mkLocals (text_color st) (word_text st)
          (Py.set (current_x_position st) (pl_text_pos_y p)
                  (pl_text_pos_x p + pl_text_width p))
          (insert_textbox pg (pl_text_rect p) (pl_word_text p)
                          (font_size self) c))
  else
    Ok (mkLocals (text_color st) (word_text st) (current_x_position st) pg).

(** The body of the [for] loop, lines 62-92. *)
Definition body (st : Locals) (d : WordDiff) : Py.result Locals :=
  p <- place st d ;; commit p.

(** The [for] loop from an arbitrary loop state. *)
Fixpoint loop (st : Locals) (word_diffs : list WordDiff)
  : Py.result Locals :=
  match word_diffs with
  | [] => Ok st
  | d :: rest => st' <- body st d ;; loop st' rest
  end.

(** The state in which the loop starts: line 59, with both prefix
    locals unassigned. *)
Definition start (pg : OutPage) : Locals := mkLocals None None [] pg.

(** [add_text_differences(page, word_diffs)]: the page after the call. *)
Definition add_text_differences (pg : OutPage) (word_diffs : list WordDiff)
  : Py.result OutPage :=
  st <- loop (start pg) word_diffs ;; Ok (page st).

(** The arrow call of line 84 on line [y] when the previous label ends at
    [last_x]. *)
Definition arrow_at (last_x y : Q) : TextBox :=
  mkTextBox
    (mkRect last_x (y - font_size self)
            (last_x + get_text_length " >" (font_size self))
            (y + font_size self * 2))
    " >" (font_size self) black.

End LabelPlacer.

(** The prefix branches assign both locals or neither. *)
Definition bound_together (st : Locals) : Prop :=
  (exists c w, text_color st = Some c /\ word_text st = Some w) \/
  (text_color st = None /\ word_text st = None).

(** The scaling-linearity property as the specification words it: in a
    label pass, every label that is drawn has its top-left corner at the
    scaled corner of the bounding box, one scaled font size higher. *)
Definition scaling_linearity_claim : Prop :=
  forall (get_text_length : string -> Q -> Q) (old_dir new_dir out_dir : string)
         (q base_font_size : Q) (pg : OutPage) (ds : list WordDiff)
         (st : Locals) (d : WordDiff) (p : Placement),
    let self := init old_dir new_dir out_dir q base_font_size in
    loop get_text_length self (start pg) ds = Ok st ->
    place get_text_length self st d = Ok p ->
    drawable (pl_text_rect p) = true ->
    x0 (pl_text_rect p) == bbox_0 (wd_bbox d) * q /\
    y0 (pl_text_rect p) == bbox_1 (wd_bbox d) * q - base_font_size * q.

(** The degenerate-drop property as the specification words it: in a
    label pass, a diff whose rectangle is infinite or empty produces no
    call and leaves the dictionary as it was, and a diff whose rectangle
    is finite and not empty produces its label and stores x + text width
    for its line. *)
Definition degenerate_drop_claim : Prop :=
  forall (get_text_length : string -> Q -> Q) (self : PDFComparer)
         (pg : OutPage) (ds : list WordDiff) (st st' : Locals)
         (d : WordDiff) (p : Placement),
    loop get_text_length self (start pg) ds = Ok st ->
    place get_text_length self st d = Ok p ->
    body get_text_length self st d = Ok st' ->
    (is_infinite (pl_text_rect p) = true \/ is_empty (pl_text_rect p) = true ->
     pg_textboxes (page st') = pg_textboxes (page st) /\
     current_x_position st' = current_x_position st) /\
    (is_infinite (pl_text_rect p) = false /\ is_empty (pl_text_rect p) = false ->
     (exists c,
        In (mkTextBox (pl_text_rect p) (pl_word_text p) (font_size self) c)
           (pg_textboxes (page st'))) /\
     Py.get (current_x_position st') (pl_text_pos_y p)
       = Some (pl_text_pos_x p + pl_text_width p)).

(** A word carries one of the two change markers. *)
Definition has_marker (word : string) : bool :=
  Py.startswith word "+ " || Py.startswith word "- ".

(** ** Page and document comparison: [compare_pdfs] *)

(** What [render_page_to_image] returns: a pymupdf pixmap. *)
Record Pixmap : Type := mkPixmap {
  pm_width : Z;
  pm_height : Z;
  pm_samples : list Byte.byte
}.

(** [Image.frombytes("RGB", [width, height], samples)]. *)
Definition Image_frombytes (pm : Pixmap) : Image :=
  mkImage (pm_width pm) (pm_height pm) (pm_samples pm).

(** The two locals of [compare_pdfs] that the page loop updates. *)
Record DocState : Type := mkDocState {
  differences_found : bool;
  output_doc : list OutPage
}.

(** [range(n)]. *)
Definition range (n : nat) : list nat := seq 0 n.

(** Truth value of a list. *)
Definition truthy {A} (l : list A) : bool :=
  match l with [] => false | _ :: _ => true end.

Definition is_not_None {A} (o : option A) : bool :=
  match o with Some _ => true | None => false end.

Definition tint_color : Z * Z * Z := (170%Z, 51%Z, 106%Z).
Definition opacity : Q := 1 # 2.

Section PageAssembly.

Variable get_text_length : string -> Q -> Q.
Variable self : PDFComparer.

(** Lines 114-135 of [compare_pdfs]: what is done with one page pair once
    the rendered old image, the overlay and the word diffs are known. *)
Definition assemble (old_image_pil : Image) (combined_image : option Image)
    (word_diffs : list WordDiff) (st : DocState) : Py.result DocState :=
  if is_not_None combined_image || truthy word_diffs then
    let pg := new_page (im_width old_image_pil) (im_height old_image_pil) in
    let pg :=
      match combined_image with
      | Some img => insert_image pg img
      | None => pg
      end in
    pg <- (if truthy word_diffs
           then add_text_differences get_text_length self pg word_diffs
           else Ok pg) ;;
    Ok (mkDocState true (output_doc st ++ [pg])%list)
  else Ok st.

(** Lines 137-141: the value [compare_pdfs] returns. *)
Definition finish (st : DocState) : option (list OutPage) :=
  if differences_found st then Some (output_doc st) else None.

End PageAssembly.

Section DocumentComparer.

(** A page of an input document, and the positioned text extracted from
    one. *)
Variable Page : Type.
Variable Text : Type.

(** The functions imported from [image_utils], [text_extractor] and
    [text_comparer]. *)
Variable render_page_to_image : Page -> Q -> Q -> Pixmap.
Variable image_utils_overlay_differences :
  Image -> Image -> Z * Z * Z -> Q -> option Image.
Variable extract_text : Page -> Text.
Variable compare_text : Text -> Text -> list WordDiff.

Variable get_text_length : string -> Q -> Q.
Variable self : PDFComparer.

(** An open input document: its pages. *)
Definition Document : Type := list Page.

(** [doc.load_page(page_num)]. *)
Definition load_page (doc : Document) (page_num : nat) : Py.result Page :=
  match nth_error doc page_num with
  | Some p => Ok p
  | None => Raise (ValueError "page not in document")
  end.

Definition render_pages_to_images (old_page new_page : Page)
  : Image * Image :=
  let old_image := render_page_to_image old_page (quality self) (quality self) in
  let new_image := render_page_to_image new_page (quality self) (quality self) in
  (Image_frombytes old_image, Image_frombytes new_image).

Definition extract_and_compare_text (old_page new_page : Page)
  : list WordDiff :=
  let old_text_with_positions := extract_text old_page in
  let new_text_with_positions := extract_text new_page in
  compare_text old_text_with_positions new_text_with_positions.

Definition overlay_differences (old_image_pil new_image_pil : Image)
  : option Image :=
  image_utils_overlay_differences old_image_pil new_image_pil
                                  tint_color opacity.

(** The overlay of a page pair, as the loop body computes it. *)
Definition page_overlay (old_page new_page : Page) : option Image :=
  let '(old_image_pil, new_image_pil) :=
    render_pages_to_images old_page new_page in
  overlay_differences old_image_pil new_image_pil.

(** Lines 105-135: the body of the page loop once both pages are
    loaded. *)
Definition compare_pair (old_page new_page : Page) (st : DocState)
  : Py.result DocState :=
  let '(old_image_pil, new_image_pil) :=
    render_pages_to_images old_page new_page in
  let combined_image := overlay_differences old_image_pil new_image_pil in
  let word_diffs := extract_and_compare_text old_page new_page in
  assemble get_text_length self old_image_pil combined_image word_diffs st.

(** The body of the page loop, lines 102-135. *)
Definition compare_page (old_doc new_doc : Document) (page_num : nat)
    (st : DocState) : Py.result DocState :=
  old_page <- load_page old_doc page_num ;;
  new_page <- load_page new_doc page_num ;;
  compare_pair old_page new_page st.

(** The page comparison as the specification words it: the page pairs of
    the two documents, in order, each handed to the page comparer. *)
Fixpoint compare_pairs (pairs : list (Page * Page)) (st : DocState)
  : Py.result DocState :=
  match pairs with
  | [] => Ok st
  | (old_page, new_page) :: rest =>
      st' <- compare_pair old_page new_page st ;;
      compare_pairs rest st'
  end.

(** A page pair differs: the test of line 114. *)
Definition page_differs (old_page new_page : Page) : bool :=
  is_not_None (page_overlay old_page new_page)
  || truthy (extract_and_compare_text old_page new_page).

(** What the word differ is expected to return: words that carry a
    marker. *)
Definition differ_marks_words : Prop :=
  forall old_page new_page,
    Forall (fun d => has_marker (wd_word d) = true)
           (extract_and_compare_text old_page new_page).

Fixpoint page_loop (old_doc new_doc : Document) (page_nums : list nat)
    (st : DocState) : Py.result DocState :=
  match page_nums with
  | [] => Ok st
  | page_num :: rest =>
      st' <- compare_page old_doc new_doc page_num st ;;
      page_loop old_doc new_doc rest st'
  end.

(** The page numbers that the loop of [compare_pdfs] visits. *)
Definition page_nums (old_doc new_doc : Document) : list nat :=
  range (Nat.min (List.length old_doc) (List.length new_doc)).

(** Lines 97-135: the loop over the opened documents. *)
Definition compare_loop (old_doc new_doc : Document) : Py.result DocState :=
  page_loop old_doc new_doc (page_nums old_doc new_doc) (mkDocState false []).

(** Lines 97-141: [compare_pdfs] once both documents are open. *)
Definition compare_docs (old_doc new_doc : Document)
  : Py.result (option (list OutPage)) :=
  st <- compare_loop old_doc new_doc ;; Ok (finish st).

(** *** The file system and the batch run: [run_comparison] *)

(** A file, by what [pymupdf.open] does on it: it opens as a document,
    or the open raises (as on an empty or damaged file). *)
Inductive File : Type :=
| Opens (doc : Document)
| Broken (e : Py.exn).

(** Directories by name, each with its entries; [os.path.join(dir, file)]
    is the pair of the directory and the entry name. *)
Definition FileSystem : Type := list (string * list (string * File)).

Fixpoint lookup {A} (l : list (string * A)) (k : string) : option A :=
  match l with
  | [] => None
  | (k', a) :: l' => if String.eqb k' k then Some a else lookup l' k
  end.

(** [os.listdir(directory)]. *)
Definition listdir (fs : FileSystem) (directory : string)
  : Py.result (list string) :=
  match lookup fs directory with
  | Some entries => Ok (map fst entries)
  | None => Raise (FileNotFoundError directory "")
  end.

(** [os.path.exists(os.path.join(directory, file))]. *)
Definition path_exists (fs : FileSystem) (directory file : string) : bool :=
  match lookup fs directory with
  | Some entries => is_not_None (lookup entries file)
  | None => false
  end.

(** [pymupdf.open(os.path.join(directory, file))]. *)
Definition pymupdf_open (fs : FileSystem) (directory file : string)
  : Py.result Document :=
  match lookup fs directory with
  | Some entries =>
      match lookup entries file with
      | Some (Opens doc) => Ok doc
      | Some (Broken e) => Raise e
      | None => Raise (FileNotFoundError directory file)
      end
  | None => Raise (FileNotFoundError directory file)
  end.

Definition get_pdf_files (fs : FileSystem) (directory : string)
  : Py.result (list string) :=
  files <- listdir fs directory ;;
  Ok (filter (fun f => Py.endswith f ".pdf") files).

(** [compare_pdfs(old_file_path, new_file_path)], both paths given as
    directory and file name. *)
Definition compare_pdfs (fs : FileSystem)
    (old_dir old_file new_dir new_file : string)
  : Py.result (option (list OutPage)) :=
  old_doc <- pymupdf_open fs old_dir old_file ;;
  new_doc <- pymupdf_open fs new_dir new_file ;;
  compare_docs old_doc new_doc.

(** What the batch run prints (elapsed times are not modelled) and
    saves. *)
Inductive event : Type :=
| PrintNoOldFiles (dir : string)
| PrintNoNewFiles (dir : string)
| PrintNewFileNotFound (old_file : string)
| Save (dir file : string) (doc : list OutPage)
| PrintDifferencesFound (dir file : string)
| PrintNoDifferences (old_file : string)
| PrintTimeTaken (old_file : string)
| PrintTotalTime.

(** Truth value of what [compare_pdfs] returned: [None] is false, a
    document is true unless it has no page. *)
Definition doc_truthy (output_doc : option (list OutPage)) : bool :=
  match output_doc with
  | Some doc => truthy doc
  | None => false
  end.

(** The loop of [run_comparison], lines 155-175: the events so far, and
    the exception that ended the run, if one did. *)
Fixpoint files_loop (fs : FileSystem) (old_files : list string)
    (log : list event) : list event * option Py.exn :=
  match old_files with
  | [] => (log, None)
  | old_file :: rest =>
      let log :=
        if negb (path_exists fs (new_documents_dir self) old_file)
        then (log ++ [PrintNewFileNotFound old_file])%list
        else log in
      match compare_pdfs fs (old_documents_dir self) old_file
                         (new_documents_dir self) old_file with
      | Raise e => (log, Some e)
      | Ok output_doc =>
          let log :=
            if doc_truthy output_doc then
              match output_doc with
              | Some doc =>
                  (log ++ [Save (output_dir self) ("diff_" ++ old_file)%string doc;
                           PrintDifferencesFound (output_dir self)
                             ("diff_" ++ old_file)%string])%list
              | None => log
              end
            else (log ++ [PrintNoDifferences old_file])%list in
          files_loop fs rest (log ++ [PrintTimeTaken old_file])%list
      end
  end.

Definition run_comparison (fs : FileSystem) : list event * option Py.exn :=
  match get_pdf_files fs (old_documents_dir self) with
  | Raise e => ([], Some e)
  | Ok old_files =>
      match get_pdf_files fs (new_documents_dir self) with
      | Raise e => ([], Some e)
      | Ok new_files =>
          let log :=
            if negb (truthy old_files)
            then [PrintNoOldFiles (old_documents_dir self)] else [] in
          let log :=
            if negb (truthy new_files)
            then (log ++ [PrintNoNewFiles (new_documents_dir self)])%list
            else log in
          match files_loop fs old_files log with
          | (log, None) => ((log ++ [PrintTotalTime])%list, None)
          | (log, Some e) => (log, Some e)
          end
      end
  end.

End DocumentComparer.

Arguments Opens {Page} doc.
Arguments Broken {Page} e.

(** ** Runs with collaborators given as relations

    To speak about two runs of the comparison, the collaborators are
    taken as input/output relations (a collaborator may answer differently
    from one call to the next) and a run of the page loop is a derivation.
    [assemble] and [load_page] are shared with the functional model. *)

Section Runs.

Variable Page : Type.
Variable Text : Type.

Variable Renderer : Page -> Q -> Q -> Pixmap -> Prop.
Variable Overlay : Image -> Image -> Z * Z * Z -> Q -> option Image -> Prop.
Variable Extractor : Page -> Text -> Prop.
Variable TextDiffer : Text -> Text -> list WordDiff -> Prop.

Variable get_text_length : string -> Q -> Q.
Variable self : PDFComparer.

(** One execution of the body of the page loop. *)
Inductive page_run (old_doc new_doc : list Page) (page_num : nat)
    (st : DocState) : Py.result DocState -> Prop :=
| page_run_no_old : forall e,
    load_page Page old_doc page_num = Raise e ->
    page_run old_doc new_doc page_num st (Raise e)
| page_run_no_new : forall old_page e,
    load_page Page old_doc page_num = Ok old_page ->
    load_page Page new_doc page_num = Raise e ->
    page_run old_doc new_doc page_num st (Raise e)
| page_run_compared :
    forall old_page new_page old_image new_image combined_image
           old_text new_text word_diffs,
    load_page Page old_doc page_num = Ok old_page ->
    load_page Page new_doc page_num = Ok new_page ->
    Renderer old_page (quality self) (quality self) old_image ->
    Renderer new_page (quality self) (quality self) new_image ->
    Overlay (Image_frombytes old_image) (Image_frombytes new_image)
            tint_color opacity combined_image ->
    Extractor old_page old_text ->
    Extractor new_page new_text ->
    TextDiffer old_text new_text word_diffs ->
    page_run old_doc new_doc page_num st
      (assemble get_text_length self (Image_frombytes old_image)
                combined_image word_diffs st).

(** One execution of the page loop. *)
Inductive loop_run (old_doc new_doc : list Page)
  : list nat -> DocState -> Py.result DocState -> Prop :=
| loop_run_done : forall st,
    loop_run old_doc new_doc [] st (Ok st)
| loop_run_next : forall page_num rest st st' r,
    page_run old_doc new_doc page_num st (Ok st') ->
    loop_run old_doc new_doc rest st' r ->
    loop_run old_doc new_doc (page_num :: rest) st r
| loop_run_raise : forall page_num rest st e,
    page_run old_doc new_doc page_num st (Raise e) ->
    loop_run old_doc new_doc (page_num :: rest) st (Raise e).

(** One execution of [compare_pdfs] on two open documents. *)
Definition docs_run (old_doc new_doc : list Page)
    (r : Py.result DocState) : Prop :=
  loop_run old_doc new_doc (page_nums Page old_doc new_doc)
           (mkDocState false []) r.

(** A collaborator is deterministic when equal inputs give equal
    outputs. *)
Definition deterministic_Renderer : Prop :=
  forall p sx sy pm pm', Renderer p sx sy pm -> Renderer p sx sy pm' -> pm = pm'.

Definition deterministic_Overlay : Prop :=
  forall a b t o r r', Overlay a b t o r -> Overlay a b t o r' -> r = r'.

Definition deterministic_Extractor : Prop :=
  forall p t t', Extractor p t -> Extractor p t' -> t = t'.

Definition deterministic_TextDiffer : Prop :=
  forall a b w w', TextDiffer a b w -> TextDiffer a b w' -> w = w'.

End Runs.

(** The relations of collaborators that are functions. *)
Definition Renderer_of {Page : Type} (f : Page -> Q -> Q -> Pixmap)
  : Page -> Q -> Q -> Pixmap -> Prop :=
  fun p sx sy pm => pm = f p sx sy.

Definition Overlay_of (f : Image -> Image -> Z * Z * Z -> Q -> option Image)
  : Image -> Image -> Z * Z * Z -> Q -> option Image -> Prop :=
  fun a b t o r => r = f a b t o.

Definition Extractor_of {Page Text : Type} (f : Page -> Text)
  : Page -> Text -> Prop :=
  fun p t => t = f p.

Definition TextDiffer_of {Text : Type} (f : Text -> Text -> list WordDiff)
  : Text -> Text -> list WordDiff -> Prop :=
  fun a b w => w = f a b.

(** ** Observations used by the further properties *)

(** The files whose timing line a log holds, in log order: the files that
    [run_comparison] has finished with. *)
Fixpoint timed_files (log : list event) : list string :=
  match log with
  | [] => []
  | PrintTimeTaken old_file :: rest => old_file :: timed_files rest
  | _ :: rest => timed_files rest
  end.

(** What [new_page] and [insert_image] have set on an output page. *)
Definition page_summary (pg : OutPage) : Z * Z * option Image :=
  (pg_width pg, pg_height pg, pg_image pg).

(** The colour local holds one of the two label colours, if any. *)
Definition label_colored (st : Locals) : Prop :=
  forall c, text_color st = Some c -> c = green \/ c = red.

(** Every extent stored in the dictionary is the right edge of a drawable
    call on the page, on the line of its key. *)
Definition extents_drawn (self : PDFComparer) (st : Locals) : Prop :=
  forall y v,
    Py.get (current_x_position st) y = Some v ->
    exists tb,
      In tb (pg_textboxes (page st)) /\
      x1 (tb_rect tb) = v /\
      y0 (tb_rect tb) == y - font_size self /\
      drawable (tb_rect tb) = true.

(** ** Sample data

    The entry point of the script builds the comparer with zoom 2.0 and
    base font size 8.  The sample measure gives every character half the
    font size, so that "hello" is 40 wide at the scaled size 16. *)

Module Sample.

Definition measure (s : string) (fs : Q) : Q :=
  Qred (inject_Z (Z.of_nat (String.length s)) * fs / 2).

Definition comparer : PDFComparer :=
  init "./Old_Documents" "./New_Documents" "./Output" 2 8.

Definition blank : OutPage := new_page 1190 1684.

Definition hello : WordDiff := ("+ hello", (25, 50, 45, 58), "added").
Definition world : WordDiff := ("- world", (30, 50, 50, 58), "removed").

(** A word with no text after its marker, and a word with no marker. *)
Definition nothing : WordDiff := ("+ ", (40, 50, 40, 58), "added").
Definition unmarked : WordDiff := ("stray", (10, 20, 30, 28), "added").

(** The loop state after "hello" alone, and after "hello" and "world". *)
Definition hello_box : TextBox :=
  mkTextBox (mkRect 50 84 90 132) "hello" 16 green.

Definition arrow_box : TextBox :=
  mkTextBox (mkRect 90 84 106 132) " >" 16 black.

Definition world_box : TextBox :=
  mkTextBox (mkRect 114 84 154 132) "world" 16 red.

Definition after_hello : Locals :=
  mkLocals (Some green) (Some "hello") [(100, 90)]
           (mkOutPage 1190 1684 None [hello_box]).

Definition after_world : Locals :=
  mkLocals (Some red) (Some "world") [(100, 154)]
           (mkOutPage 1190 1684 None [hello_box; arrow_box; world_box]).

(** What the iteration on "world" has computed after "hello". *)
Definition world_placement : Placement :=
  mkPlacement
    (mkLocals (Some red) (Some "world") [(100, 90)]
              (mkOutPage 1190 1684 None [hello_box]))
    "world" 40 (Some arrow_box) 114 100 (mkRect 114 84 154 132).

(** What the iteration on the word without text has computed at the
    start of a page. *)
Definition nothing_placement : Placement :=
  mkPlacement (mkLocals (Some green) (Some "") [] blank)
              "" 0 None 80 100 (mkRect 80 84 80 132).

(** What the iteration on the word without text has computed after
    "hello", on whose line it falls, and the loop state after it. *)
Definition nothing_collides : Placement :=
  mkPlacement
    (mkLocals (Some green) (Some "") [(100, 90)]
              (mkOutPage 1190 1684 None [hello_box]))
    "" 0 (Some arrow_box) 114 100 (mkRect 114 84 114 132).

Definition after_nothing : Locals :=
  mkLocals (Some green) (Some "") [(100, 90)]
           (mkOutPage 1190 1684 None [hello_box; arrow_box]).

(** Stub collaborators.  A page is its appearance (the samples it
    renders to) and its words; the overlay is the new image unless both
    images have the same samples; the differ marks the words of the old
    page that the new page lacks as removed, and the words of the new page
    that the old page lacks as added. *)
Definition Page : Type := (list Byte.byte * list (string * BBox))%type.
Definition Text : Type := list (string * BBox).

Definition render_page_to_image (p : Page) (sx sy : Q) : Pixmap :=
  mkPixmap 1190 1684 (fst p).

Fixpoint bytes_eqb (a b : list Byte.byte) : bool :=
  match a, b with
  | [], [] => true
  | x :: a', y :: b' => Byte.eqb x y && bytes_eqb a' b'
  | _, _ => false
  end.

Definition overlay_differences (a b : Image) (tint : Z * Z * Z) (o : Q)
  : option Image :=
  if bytes_eqb (im_samples a) (im_samples b) then None else Some b.

Definition extract_text (p : Page) : Text := snd p.

Definition lacks (t : Text) (w : string * BBox) : bool :=
  negb (existsb (fun v => String.eqb (fst v) (fst w)) t).

Definition compare_text (old_text new_text : Text) : list WordDiff :=
  (map (fun w => ("- " ++ fst w, snd w, "removed")%string)
       (filter (lacks new_text) old_text)
   ++ map (fun w => ("+ " ++ fst w, snd w, "added")%string)
          (filter (lacks old_text) new_text))%list.

Definition same_page : Page :=
  ([Byte.x00], [("alpha", (10, 20, 30, 28))]).
Definition old_page : Page :=
  ([Byte.x00], [("alpha", (10, 20, 30, 28)); ("hello", (25, 50, 45, 58))]).
Definition new_page : Page :=
  ([Byte.x01], [("alpha", (10, 20, 30, 28)); ("world", (30, 50, 50, 58))]).

(** A five-page old document and a three-page new one: only the second
    page pair differs among the first three; the fifth old page differs
    from every page of the new document. *)
Definition old_doc : list Page :=
  [same_page; old_page; same_page; same_page; old_page].
Definition new_doc : list Page :=
  [same_page; new_page; same_page].

(** The output page for the second page pair. *)
Definition diff_page : OutPage :=
  mkOutPage 1190 1684 (Some (mkImage 1190 1684 [Byte.x01]))
    [mkTextBox (mkRect 50 84 90 132) "hello" 16 red;
     arrow_box;
     mkTextBox (mkRect 114 84 154 132) "world" 16 green].

(** The old directory holds two documents, the new directory only the
    second of them. *)
Definition fs : FileSystem Page :=
  [("./Old_Documents", [("a.pdf", Opens old_doc); ("b.pdf", Opens old_doc)]);
   ("./New_Documents", [("b.pdf", Opens new_doc)]);
   ("./Output", [])].

(** Both directories hold a.pdf and b.pdf; b.pdf has no page. *)
Definition fs_complete : FileSystem Page :=
  [("./Old_Documents",
    [("a.pdf", Opens old_doc); ("notes.txt", Opens []); ("b.pdf", Opens [])]);
   ("./New_Documents", [("a.pdf", Opens new_doc); ("b.pdf", Opens [])]);
   ("./Output", [])].

(** Both directories hold a.pdf and an empty file c.pdf, on which the
    open raises. *)
Definition fs_empty_file : FileSystem Page :=
  [("./Old_Documents",
    [("a.pdf", Opens old_doc);
     ("c.pdf", Broken (FileDataError "Cannot open empty file"))]);
   ("./New_Documents",
    [("a.pdf", Opens new_doc);
     ("c.pdf", Broken (FileDataError "Cannot open empty file"))]);
   ("./Output", [])].

(** A differ that leaves the markers off: the words of the old page that
    the new page lacks, as they are. *)
Definition bare_compare_text (old_text new_text : Text) : list WordDiff :=
  map (fun w => (fst w, snd w, "removed")) (filter (lacks new_text) old_text).

End Sample.

(** ** Facts about the primitives *)

Lemma gt_true (a b : Q) : Py.gt a b = true <-> b < a.
Proof.
  unfold Py.gt. rewrite negb_true_iff. split; intro H.
  - apply Qnot_le_lt. intro Hle. apply Qle_bool_iff in Hle. congruence.
  - destruct (Qle_bool a b) eqn:E; [|reflexivity].
    apply Qle_bool_iff in E. lra.
Qed.

Lemma gt_false (a b : Q) : Py.gt a b = false <-> a <= b.
Proof.
  unfold Py.gt. rewrite negb_false_iff. apply Qle_bool_iff.
Qed.

Lemma ge_true (a b : Q) : Py.ge a b = true <-> b <= a.
Proof. unfold Py.ge. apply Qle_bool_iff. Qed.

Lemma ge_false (a b : Q) : Py.ge a b = false <-> a < b.
Proof.
  unfold Py.ge. split; intro H.
  - apply Qnot_le_lt. intro Hle. apply Qle_bool_iff in Hle. congruence.
  - destruct (Qle_bool b a) eqn:E; [|reflexivity].
    apply Qle_bool_iff in E. lra.
Qed.

(** A word does not start with both markers. *)
Lemma markers_exclusive (word : string) :
  Py.startswith word "+ " = true -> Py.startswith word "- " = true -> False.
Proof.
  unfold Py.startswith.
  destruct word as [|a word]; [discriminate|]. cbn [String.prefix].
  destruct (ascii_dec "+" a) as [<-|]; [|discriminate].
  intros _. destruct (ascii_dec "-" "+") as [E|]; discriminate.
Qed.

Lemma is_empty_false (r : Rect) :
  is_empty r = false <-> x0 r < x1 r /\ y0 r < y1 r.
Proof.
  unfold is_empty. rewrite orb_false_iff, !ge_false. tauto.
Qed.

Lemma is_infinite_true (r : Rect) :
  is_infinite r = true ->
  y0 r == FZ_MIN_INF_RECT /\ y1 r == FZ_MAX_INF_RECT.
Proof.
  unfold is_infinite. rewrite !andb_true_iff, !Qeq_bool_iff. tauto.
Qed.

Lemma drawable_true (r : Rect) :
  drawable r = true <->
  is_infinite r = false /\ x0 r < x1 r /\ y0 r < y1 r.
Proof.
  unfold drawable.
  rewrite andb_true_iff, !negb_true_iff, is_empty_false. tauto.
Qed.

Lemma get_respects (d : Py.dict) (k k' : Q) :
  k == k' -> Py.get d k = Py.get d k'.
Proof.
  intro H. induction d as [|[k0 v0] d IH]; simpl; [reflexivity|].
  rewrite IH. now rewrite H.
Qed.

Lemma get_set (d : Py.dict) (k v j : Q) :
  Py.get (Py.set d k v) j = if Qeq_bool k j then Some v else Py.get d j.
Proof.
  induction d as [|[k0 v0] d IH]; simpl; [reflexivity|].
  destruct (Qeq_bool k0 k) eqn:E0; simpl.
  - apply Qeq_bool_iff in E0. rewrite <- (Qeqb_comp _ _ E0 j j (Qeq_refl j)).
    now destruct (Qeq_bool k0 j).
  - rewrite IH.
    destruct (Qeq_bool k0 j) eqn:E1, (Qeq_bool k j) eqn:E2; try reflexivity.
    apply Qeq_bool_iff in E1, E2.
    assert (Qeq_bool k0 k = true) by (apply Qeq_bool_iff; now rewrite E1, E2).
    congruence.
Qed.

Lemma get_set_same (d : Py.dict) (k v : Q) :
  Py.get (Py.set d k v) k = Some v.
Proof. rewrite get_set. now rewrite Qeq_bool_refl. Qed.

Lemma contains_get (d : Py.dict) (k : Q) :
  Py.contains d k = true <-> exists v, Py.get d k = Some v.
Proof.
  unfold Py.contains. destruct (Py.get d k).
  - split; eauto.
  - split; [discriminate | intros [v H]; discriminate].
Qed.

(** ** Facts about the label placer *)

Section LabelPlacerFacts.

Variable get_text_length : string -> Q -> Q.
Variable self : PDFComparer.

Local Abbreviation fs := (font_size self).
Local Abbreviation space_width := (get_text_length " " (font_size self)).
Local Abbreviation arrow_width := (get_text_length " >" (font_size self)).
Local Abbreviation arrow_at := (arrow_at get_text_length self).

Lemma assign_prefix_marked (st : Locals) (word : string) :
  has_marker word = true ->
  exists c,
    (c = green \/ c = red) /\
    assign_prefix st word =
      mkLocals (Some c) (Some (Py.slice_from 2 word))
               (current_x_position st) (page st).
Proof.
  unfold has_marker, assign_prefix. intro H.
  destruct (Py.startswith word "+ ").
  - exists green. auto.
  - simpl in H. rewrite H. exists red. auto.
Qed.

Lemma assign_prefix_unmarked (st : Locals) (word : string) :
  has_marker word = false -> assign_prefix st word = st.
Proof.
  unfold has_marker, assign_prefix. intro H.
  apply orb_false_iff in H. destruct H as [-> ->]. reflexivity.
Qed.

Lemma assign_prefix_keeps (st : Locals) (word : string) :
  current_x_position (assign_prefix st word) = current_x_position st /\
  page (assign_prefix st word) = page st.
Proof.
  unfold assign_prefix.
  destruct (Py.startswith word "+ "); [now simpl|].
  destruct (Py.startswith word "- "); now simpl.
Qed.

(** The two outcomes of the overlap adjustment. *)
Lemma avoid_overlap_collide (cxp : Py.dict) (x y last_x : Q) :
  Py.get cxp y = Some last_x ->
  x < last_x + space_width ->
  avoid_overlap get_text_length self cxp x y =
    (Some (arrow_at last_x y), last_x + arrow_width + space_width).
Proof.
  intros Hget Hlt. unfold avoid_overlap, Py.contains. rewrite Hget.
  apply gt_true in Hlt. rewrite Hlt. reflexivity.
Qed.

Lemma avoid_overlap_clear (cxp : Py.dict) (x y : Q) :
  (forall last_x, Py.get cxp y = Some last_x -> last_x + space_width <= x) ->
  avoid_overlap get_text_length self cxp x y = (None, x).
Proof.
  intro H. unfold avoid_overlap, Py.contains.
  destruct (Py.get cxp y) as [last_x|] eqn:Hget; [|reflexivity].
  specialize (H last_x eq_refl). apply gt_false in H.
  now rewrite H.
Qed.

Lemma avoid_overlap_cases (cxp : Py.dict) (x y : Q) :
  (exists last_x,
      Py.get cxp y = Some last_x /\ x < last_x + space_width /\
      avoid_overlap get_text_length self cxp x y =
        (Some (arrow_at last_x y), last_x + arrow_width + space_width))
  \/
  ((forall last_x, Py.get cxp y = Some last_x -> last_x + space_width <= x) /\
   avoid_overlap get_text_length self cxp x y = (None, x)).
Proof.
  destruct (Py.get cxp y) as [last_x|] eqn:Hget.
  - destruct (Qlt_le_dec x (last_x + space_width)) as [Hlt|Hle].
    + left. exists last_x. auto using avoid_overlap_collide.
    + right. split.
      * intros l Hl. congruence.
      * apply avoid_overlap_clear. intros l Hl.
        rewrite Hget in Hl. congruence.
  - right. split; [discriminate|].
    apply avoid_overlap_clear. intros l Hl. rewrite Hget in Hl. discriminate.
Qed.

(** [place] succeeds exactly when the stripped word is assigned. *)
Lemma place_bound (st : Locals) (word : string) (bbox : BBox) (ct w : string) :
  word_text (assign_prefix st word) = Some w ->
  exists p,
    place get_text_length self st (word, bbox, ct) = Ok p /\
    pl_locals p = assign_prefix st word /\
    pl_word_text p = w /\
    pl_text_width p = get_text_length w fs /\
    pl_text_pos_y p = bbox_1 bbox * quality self /\
    (pl_arrow p, pl_text_pos_x p) =
      avoid_overlap get_text_length self (current_x_position st)
                    (bbox_0 bbox * quality self) (bbox_1 bbox * quality self) /\
    pl_text_rect p =
      mkRect (pl_text_pos_x p) (pl_text_pos_y p - fs)
             (pl_text_pos_x p + pl_text_width p) (pl_text_pos_y p + fs * 2).
Proof.
  intro Hw. unfold place. rewrite Hw. simpl.
  destruct (assign_prefix_keeps st word) as [-> _].
  destruct (avoid_overlap _ _ _ _ _) as [arrow x] eqn:E.
  eexists. split; [reflexivity|]. simpl. repeat split; reflexivity.
Qed.

Lemma place_unbound (st : Locals) (word : string) (bbox : BBox) (ct : string) :
  word_text (assign_prefix st word) = None ->
  place get_text_length self st (word, bbox, ct) =
    Raise (UnboundLocalError "word_text").
Proof. intro Hw. unfold place. now rewrite Hw. Qed.

Lemma assign_prefix_bound_together (st : Locals) (word : string) :
  bound_together st -> bound_together (assign_prefix st word).
Proof.
  intro H. unfold assign_prefix.
  destruct (Py.startswith word "+ ").
  - left. simpl. eauto.
  - destruct (Py.startswith word "- "); [left; simpl; eauto | exact H].
Qed.

Lemma draw_arrow_textboxes (pg : OutPage) (arrow : option TextBox) :
  pg_textboxes (draw_arrow pg arrow) = (pg_textboxes pg ++ arrow_calls arrow)%list.
Proof.
  destruct arrow as [[r t f c]|]; simpl; [reflexivity|].
  now rewrite app_nil_r.
Qed.

(** The only arrow call there is: the text " >" in black. *)
Lemma place_arrow (st : Locals) (d : WordDiff) (p : Placement) (a : TextBox) :
  place get_text_length self st d = Ok p ->
  In a (arrow_calls (pl_arrow p)) ->
  exists last_x,
    Py.get (current_x_position st) (pl_text_pos_y p) = Some last_x /\
    a = arrow_at last_x (pl_text_pos_y p) /\
    pl_text_pos_x p = last_x + arrow_width + space_width.
Proof.
  destruct d as [[word bbox] ct]. unfold place.
  destruct (word_text (assign_prefix st word)) as [w|]; [|discriminate].
  simpl. destruct (assign_prefix_keeps st word) as [-> _].
  destruct (avoid_overlap_cases (current_x_position st)
              (bbox_0 bbox * quality self) (bbox_1 bbox * quality self))
    as [(last_x & Hget & Hlt & ->) | (Hclear & ->)];
    intros [= <-]; simpl; [|tauto].
  intros [<- | []]. exists last_x. auto.
Qed.

(** What the body does once [place] has succeeded. *)
Lemma body_dropped (st : Locals) (d : WordDiff) (p : Placement) :
  place get_text_length self st d = Ok p ->
  drawable (pl_text_rect p) = false ->
  body get_text_length self st d =
    Ok (mkLocals (text_color (pl_locals p)) (word_text (pl_locals p))
                 (current_x_position (pl_locals p))
                 (draw_arrow (page (pl_locals p)) (pl_arrow p))).
Proof.
  intros Hp Hd. unfold body. rewrite Hp. simpl. unfold commit.
  now rewrite Hd.
Qed.

Lemma body_drawn (st : Locals) (d : WordDiff) (p : Placement) (c : Color) :
  place get_text_length self st d = Ok p ->
  drawable (pl_text_rect p) = true ->
  text_color (pl_locals p) = Some c ->
  body get_text_length self st d =
    Ok (mkLocals (text_color (pl_locals p)) (word_text (pl_locals p))
          (Py.set (current_x_position (pl_locals p)) (pl_text_pos_y p)
                  (pl_text_pos_x p + pl_text_width p))
          (insert_textbox (draw_arrow (page (pl_locals p)) (pl_arrow p))
                          (pl_text_rect p) (pl_word_text p) fs c)).
Proof.
  intros Hp Hd Hc. unfold body. rewrite Hp. simpl. unfold commit.
  now rewrite Hd, Hc.
Qed.

(** [place] keeps the dictionary and the page, and records the locals
    after the prefix branches. *)
Lemma place_locals (st : Locals) (d : WordDiff) (p : Placement) :
  place get_text_length self st d = Ok p ->
  pl_locals p = assign_prefix st (wd_word d) /\
  word_text (pl_locals p) = Some (pl_word_text p) /\
  current_x_position (pl_locals p) = current_x_position st /\
  page (pl_locals p) = page st.
Proof.
  destruct d as [[word bbox] ct]. unfold place, wd_word. simpl.
  destruct (word_text (assign_prefix st word)) as [w|] eqn:Hw; [|discriminate].
  simpl. destruct (avoid_overlap _ _ _ _ _) as [arrow x].
  intros [= <-]. simpl.
  destruct (assign_prefix_keeps st word) as [H1 H2]. auto.
Qed.

Lemma place_fields (st : Locals) (d : WordDiff) (p : Placement) :
  place get_text_length self st d = Ok p ->
  pl_text_width p = get_text_length (pl_word_text p) fs /\
  pl_text_pos_y p = bbox_1 (wd_bbox d) * quality self /\
  (pl_arrow p, pl_text_pos_x p) =
    avoid_overlap get_text_length self (current_x_position st)
      (bbox_0 (wd_bbox d) * quality self) (bbox_1 (wd_bbox d) * quality self) /\
  pl_text_rect p =
    mkRect (pl_text_pos_x p) (pl_text_pos_y p - fs)
           (pl_text_pos_x p + pl_text_width p) (pl_text_pos_y p + fs * 2).
Proof.
  destruct d as [[word bbox] ct]. unfold place, wd_bbox. simpl.
  destruct (word_text (assign_prefix st word)) as [w|] eqn:Hw; [|discriminate].
  simpl. destruct (assign_prefix_keeps st word) as [-> _].
  destruct (avoid_overlap _ _ _ _ _) as [arrow x].
  intros [= <-]. simpl. auto.
Qed.

(** The body keeps the two prefix locals assigned together. *)
Lemma body_bound_together (st st' : Locals) (d : WordDiff) :
  bound_together st ->
  body get_text_length self st d = Ok st' ->
  bound_together st'.
Proof.
  intros Hb. unfold body.
  destruct (place get_text_length self st d) as [p|e] eqn:Hp; [|discriminate].
  destruct (place_locals _ _ _ Hp) as (Hl & _). simpl. unfold commit.
  pose proof (assign_prefix_bound_together st (wd_word d) Hb) as Hb'.
  rewrite <- Hl in Hb'.
  destruct (drawable (pl_text_rect p)).
  - destruct (text_color (pl_locals p)) eqn:Hc; [|discriminate].
    simpl. intros [= <-]. unfold bound_together in *. simpl. now rewrite Hc in Hb'.
  - intros [= <-]. exact Hb'.
Qed.

Lemma loop_bound_together (ds : list WordDiff) (st st' : Locals) :
  bound_together st ->
  loop get_text_length self st ds = Ok st' ->
  bound_together st'.
Proof.
  revert st. induction ds as [|d ds IH]; simpl; intros st Hb.
  - now intros [= <-].
  - destruct (body get_text_length self st d) as [st1|e] eqn:Hbody;
      [|discriminate].
    simpl. apply IH. eapply body_bound_together; eauto.
Qed.

Lemma start_bound_together (pg : OutPage) : bound_together (start pg).
Proof. right. now simpl. Qed.

End LabelPlacerFacts.

(** ** Properties of the label placer *)

Section LabelPlacerProperties.

Variable get_text_length : string -> Q -> Q.
Variable self : PDFComparer.

Local Abbreviation fs := (font_size self).
Local Abbreviation space_width := (get_text_length " " (font_size self)).
Local Abbreviation arrow_width := (get_text_length " >" (font_size self)).
Local Abbreviation run_body := (body get_text_length self).
Local Abbreviation run_place := (place get_text_length self).
Local Abbreviation run_loop := (loop get_text_length self).

(** One iteration never lowers the extent stored for a line. *)
Lemma body_extent_monotone (st st' : Locals) (d : WordDiff) (y v : Q) :
  (forall s, 0 <= get_text_length s fs) ->
  run_body st d = Ok st' ->
  Py.get (current_x_position st) y = Some v ->
  exists v', Py.get (current_x_position st') y = Some v' /\ v <= v'.
Proof.
  intros Hpos Hbody Hget.
  unfold body in Hbody.
  destruct (run_place st d) as [p|e] eqn:Hp; [|discriminate].
  simpl in Hbody. unfold commit in Hbody.
  destruct (place_locals _ _ _ _ _ Hp) as (_ & _ & Hcxp & _).
  destruct (place_fields _ _ _ _ _ Hp) as (Hw & Hy & Hov & Hrect).
  destruct (drawable (pl_text_rect p)) eqn:Hd.
  - destruct (text_color (pl_locals p)); [|discriminate].
    simpl in Hbody. injection Hbody as <-. simpl.
    rewrite Hcxp, get_set.
    destruct (Qeq_bool (pl_text_pos_y p) y) eqn:Ey.
    + eexists. split; [reflexivity|].
      apply Qeq_bool_iff in Ey.
      rewrite <- (get_respects _ _ _ Ey) in Hget.
      pose proof (Hpos (pl_word_text p)) as Hw0. rewrite <- Hw in Hw0.
      rewrite Hy in Hget.
      destruct (avoid_overlap_cases get_text_length self
                  (current_x_position st)
                  (bbox_0 (wd_bbox d) * quality self)
                  (bbox_1 (wd_bbox d) * quality self))
        as [(last_x & Hl & Hlt & E) | (Hclear & E)];
        rewrite E in Hov; injection Hov as _ Hx.
      * rewrite Hl in Hget. injection Hget as ->.
        pose proof (Hpos " ") as H1. pose proof (Hpos " >") as H2.
        rewrite Hx. lra.
      * specialize (Hclear v Hget). pose proof (Hpos " ") as H1.
        rewrite Hx. lra.
    + exists v. split; [assumption | lra].
  - injection Hbody as <-. simpl. rewrite Hcxp.
    exists v. split; [assumption | lra].
Qed.

(** C2: throughout one label pass, from whichever state of the loop one
    starts to look, the rightmost extent stored for a line key that is
    present is still present after any further diffs and has not
    decreased, provided the measured text widths are non-negative. *)
Theorem rightmost_extent_monotone (ds : list WordDiff) (st st' : Locals)
    (y v : Q) :
  (forall s, 0 <= get_text_length s fs) ->
  run_loop st ds = Ok st' ->
  Py.get (current_x_position st) y = Some v ->
  exists v', Py.get (current_x_position st') y = Some v' /\ v <= v'.
Proof.
  intro Hpos. revert st v.
  induction ds as [|d ds IH]; simpl; intros st v Hloop Hget.
  - injection Hloop as <-. exists v. split; [assumption | lra].
  - destruct (run_body st d) as [st1|e] eqn:Hbody; [|discriminate].
    simpl in Hloop.
    destruct (body_extent_monotone st st1 d y v Hpos Hbody Hget)
      as (v1 & Hget1 & Hle1).
    destruct (IH st1 v1 Hloop Hget1) as (v' & Hget' & Hle').
    exists v'. split; [assumption | lra].
Qed.

(** A label rectangle of zero (or negative) width is empty. *)
Lemma zero_width_not_drawable (st : Locals) (d : WordDiff) (p : Placement) :
  run_place st d = Ok p ->
  pl_text_width p <= 0 ->
  is_empty (pl_text_rect p) = true.
Proof.
  intros Hp Hw.
  destruct (place_fields _ _ _ _ _ Hp) as (_ & _ & _ & ->).
  unfold is_empty. simpl. apply orb_true_iff. left. apply ge_true. lra.
Qed.

(** C3, as the code has it: when the rectangle computed for a diff is
    infinite or empty (as it is when the measured width is zero), the
    iteration makes no call for the diff's word and leaves the dictionary
    as it was; the one call it still makes is the overlap arrow, drawn
    before the rectangle is tested, when the diff collides with the label
    before it on its line.  When the rectangle is finite and not empty,
    the iteration makes the label call with that rectangle and the
    stripped word (after the arrow, if any), and stores x + text width
    for the line. *)
Theorem degenerate_label_dropped (st : Locals) (d : WordDiff)
    (p : Placement) :
  bound_together st ->
  run_place st d = Ok p ->
  (is_infinite (pl_text_rect p) = true \/ is_empty (pl_text_rect p) = true ->
   exists st',
     run_body st d = Ok st' /\
     pg_textboxes (page st') =
       (pg_textboxes (page st) ++ arrow_calls (pl_arrow p))%list /\
     current_x_position st' = current_x_position st) /\
  (is_infinite (pl_text_rect p) = false /\ is_empty (pl_text_rect p) = false ->
   exists st' c,
     run_body st d = Ok st' /\
     pg_textboxes (page st') =
       (pg_textboxes (page st) ++ arrow_calls (pl_arrow p)
        ++ [mkTextBox (pl_text_rect p) (pl_word_text p) fs c])%list /\
     current_x_position st' =
       Py.set (current_x_position st) (pl_text_pos_y p)
              (pl_text_pos_x p + pl_text_width p) /\
     Py.get (current_x_position st') (pl_text_pos_y p) =
       Some (pl_text_pos_x p + pl_text_width p)) /\
  (pl_text_width p == 0 -> is_empty (pl_text_rect p) = true).
Proof.
  intros Hb Hp.
  destruct (place_locals _ _ _ _ _ Hp) as (Hl & Hw & Hcxp & Hpg).
  split; [|split].
  - intro Hdeg.
    assert (Hd : drawable (pl_text_rect p) = false).
    { unfold drawable. destruct Hdeg as [-> | ->]; simpl;
        [reflexivity | apply andb_false_r]. }
    eexists. split; [apply body_dropped; eassumption|]. simpl.
    rewrite draw_arrow_textboxes, Hpg, Hcxp. auto.
  - intros [Hinf Hemp].
    assert (Hd : drawable (pl_text_rect p) = true).
    { unfold drawable. now rewrite Hinf, Hemp. }
    pose proof (assign_prefix_bound_together st (wd_word d) Hb) as Hb'.
    rewrite <- Hl in Hb'.
    destruct Hb' as [(c & w & Hc & _) | (_ & Hnone)]; [|congruence].
    eexists. exists c. split; [apply body_drawn; eassumption|]. simpl.
    rewrite draw_arrow_textboxes, Hpg, Hcxp, get_set_same, <- app_assoc.
    auto.
  - intro Hz. eapply zero_width_not_drawable; [eassumption|]. lra.
Qed.


(** An iteration on a marked word succeeds. *)
Lemma body_marked_total (st : Locals) (d : WordDiff) :
  has_marker (wd_word d) = true ->
  exists p st', run_place st d = Ok p /\ run_body st d = Ok st'.
Proof.
  intro Hm. destruct d as [[word bbox] ct]. unfold wd_word in Hm. simpl in Hm.
  destruct (assign_prefix_marked st word Hm) as (c & _ & Hassign).
  destruct (place_bound get_text_length self st word bbox ct
              (Py.slice_from 2 word)) as (p & Hp & Hl & _).
  { now rewrite Hassign. }
  assert (Hc : text_color (pl_locals p) = Some c) by now rewrite Hl, Hassign.
  exists p. destruct (drawable (pl_text_rect p)) eqn:Hd.
  - eexists. split; [exact Hp | eapply body_drawn; eassumption].
  - eexists. split; [exact Hp | eapply body_dropped; eassumption].
Qed.

Lemma loop_marked_total (ds : list WordDiff) (st : Locals) :
  Forall (fun d => has_marker (wd_word d) = true) ds ->
  exists st', run_loop st ds = Ok st'.
Proof.
  intro H. revert st. induction H as [|d ds Hd _ IH]; intro st; simpl.
  - eauto.
  - destruct (body_marked_total st d Hd) as (_ & st1 & _ & ->).
    simpl. apply IH.
Qed.

(** Once both prefix locals are assigned, the loop cannot fail whatever
    the words are: an unmarked word reuses the colour and text of the
    diff before it. *)
Lemma loop_bound_total (ds : list WordDiff) (st : Locals) :
  (exists c w, text_color st = Some c /\ word_text st = Some w) ->
  exists st', run_loop st ds = Ok st'.
Proof.
  revert st. induction ds as [|d ds IH]; intros st Hb; simpl; [eauto|].
  assert (Hb' : exists c w,
             text_color (assign_prefix st (wd_word d)) = Some c /\
             word_text (assign_prefix st (wd_word d)) = Some w).
  { unfold assign_prefix.
    destruct (Py.startswith (wd_word d) "+ "); [simpl; eauto|].
    destruct (Py.startswith (wd_word d) "- "); [simpl; eauto | exact Hb]. }
  destruct Hb' as (c & w & Hc & Hw).
  destruct d as [[word bbox] ct]. unfold wd_word in *. simpl in *.
  destruct (place_bound get_text_length self st word bbox ct w Hw)
    as (p & Hp & Hl & _).
  assert (Hc' : text_color (pl_locals p) = Some c) by now rewrite Hl.
  assert (Hw' : word_text (pl_locals p) = Some w) by now rewrite Hl.
  destruct (drawable (pl_text_rect p)) eqn:Hd.
  - rewrite (body_drawn _ _ _ _ _ c Hp Hd Hc'). simpl.
    apply IH. simpl. eauto.
  - rewrite (body_dropped _ _ _ _ _ Hp Hd). simpl.
    apply IH. simpl. eauto.
Qed.

(** A pass over marked words succeeds. *)
Lemma pass_marked_total (pg : OutPage) (ds : list WordDiff) :
  Forall (fun d => has_marker (wd_word d) = true) ds ->
  exists pg', add_text_differences get_text_length self pg ds = Ok pg'.
Proof.
  intro H. unfold add_text_differences.
  destruct (loop_marked_total ds (start pg) H) as (st' & ->).
  simpl. eauto.
Qed.

(** The pass fails only in that case: a marked first word is enough. *)
Lemma marked_first_total (pg : OutPage) (d : WordDiff) (rest : list WordDiff) :
  has_marker (wd_word d) = true ->
  exists pg', add_text_differences get_text_length self pg (d :: rest) = Ok pg'.
Proof.
  intro Hm. unfold add_text_differences. simpl.
  destruct (body_marked_total (start pg) d Hm) as (p & st1 & Hp & Hbody).
  rewrite Hbody. simpl.
  destruct (loop_bound_total rest st1) as (st' & ->); [|simpl; eauto].
  pose proof (body_bound_together get_text_length self _ _ _
                (start_bound_together pg) Hbody) as Hb.
  destruct Hb as [Hb | (Hc & Hw)]; [exact Hb|].
  exfalso. revert Hbody. unfold body. rewrite Hp. simpl. unfold commit.
  destruct (place_locals _ _ _ _ _ Hp) as (_ & Hwp & _).
  destruct (drawable (pl_text_rect p)).
  - destruct (text_color (pl_locals p)); [|discriminate].
    simpl. intros [= <-]. simpl in Hw. congruence.
  - intros [= <-]. simpl in Hw. congruence.
Qed.


(** C8: an iteration on a word marked as added ("+ ") makes its label
    call in green, one on a word marked as removed ("- ") makes it in red,
    and every arrow call is the text " >" in black.  The iteration on a
    marked word never fails, and makes no other call. *)
Theorem label_colors (st : Locals) (d : WordDiff) :
  has_marker (wd_word d) = true ->
  exists p st' labels,
    run_place st d = Ok p /\
    run_body st d = Ok st' /\
    pg_textboxes (page st') =
      (pg_textboxes (page st) ++ arrow_calls (pl_arrow p) ++ labels)%list /\
    (forall a, In a (arrow_calls (pl_arrow p)) ->
               tb_text a = " >" /\ tb_color a = black) /\
    (forall l, In l labels ->
               tb_text l = Py.slice_from 2 (wd_word d) /\
               tb_rect l = pl_text_rect p) /\
    (labels = [] <-> drawable (pl_text_rect p) = false) /\
    (Py.startswith (wd_word d) "+ " = true ->
     forall l, In l labels -> tb_color l = green) /\
    (Py.startswith (wd_word d) "- " = true ->
     forall l, In l labels -> tb_color l = red).
Proof.
  intro Hm. destruct d as [[word bbox] ct]. unfold wd_word in *. simpl in *.
  assert (Hcol : exists c,
    assign_prefix st word =
      mkLocals (Some c) (Some (Py.slice_from 2 word))
               (current_x_position st) (page st) /\
    (Py.startswith word "+ " = true -> c = green) /\
    (Py.startswith word "- " = true -> c = red)).
  { unfold assign_prefix, has_marker in *.
    destruct (Py.startswith word "+ ") eqn:Ep.
    - exists green. repeat split; auto.
      intro Hminus. exfalso. eapply markers_exclusive; eassumption.
    - simpl in Hm. rewrite Hm. exists red. repeat split; auto. discriminate. }
  destruct Hcol as (c & Hassign & Hgreen & Hred).
  destruct (place_bound get_text_length self st word bbox ct
              (Py.slice_from 2 word)) as (p & Hp & Hl & Hw & _).
  { now rewrite Hassign. }
  assert (Hc : text_color (pl_locals p) = Some c) by now rewrite Hl, Hassign.
  assert (Hpg : page (pl_locals p) = page st) by now rewrite Hl, Hassign.
  assert (Harrow : forall a, In a (arrow_calls (pl_arrow p)) ->
                             tb_text a = " >" /\ tb_color a = black).
  { intros a Ha.
    destruct (place_arrow _ _ _ _ _ _ Hp Ha) as (last_x & _ & -> & _).
    now simpl. }
  exists p.
  destruct (drawable (pl_text_rect p)) eqn:Hd.
  - eexists.
    exists [mkTextBox (pl_text_rect p) (pl_word_text p) fs c].
    split; [exact Hp|].
    split; [eapply body_drawn; eassumption|]. simpl.
    rewrite draw_arrow_textboxes, Hpg, <- app_assoc.
    split; [reflexivity|]. split; [exact Harrow|].
    split; [intros l [<- | []]; simpl; split; [assumption | reflexivity]|].
    split; [split; discriminate|].
    split; [intros Hplus l [<- | []] | intros Hminus l [<- | []]];
      simpl; auto.
  - eexists. exists [].
    split; [exact Hp|].
    split; [eapply body_dropped; eassumption|]. simpl.
    rewrite draw_arrow_textboxes, Hpg, app_nil_r.
    split; [reflexivity|]. split; [exact Harrow|].
    split; [intros l []|]. split; [tauto|].
    split; intros _ l [].
Qed.

(** C10: the pass succeeds on every list of diffs whose words all carry
    the "+ " or "- " marker, and it raises the unassigned-variable error
    for [word_text] when the first diff of the page carries neither. *)
Theorem marker_precondition (pg : OutPage) (ds : list WordDiff) :
  (Forall (fun d => has_marker (wd_word d) = true) ds ->
   exists pg', add_text_differences get_text_length self pg ds = Ok pg') /\
  (forall d rest,
     ds = d :: rest ->
     has_marker (wd_word d) = false ->
     add_text_differences get_text_length self pg ds =
       Raise (UnboundLocalError "word_text")).
Proof.
  split.
  - intro H. unfold add_text_differences.
    destruct (loop_marked_total ds (start pg) H) as (st' & ->).
    simpl. eauto.
  - intros d rest -> Hm. unfold add_text_differences. simpl.
    unfold body. destruct d as [[word bbox] ct]. unfold wd_word in Hm.
    simpl in Hm. rewrite place_unbound; [reflexivity|].
    now rewrite assign_prefix_unmarked.
Qed.

End LabelPlacerProperties.


(** C5, as the code has it: the rectangle computed for a diff has its top
    at the scaled y of the bounding box minus the base font size times the
    zoom factor; its left side is the scaled x of the bounding box when
    the diff does not collide with the label before it on the line, and
    otherwise the end of that label plus the widths of the arrow and of a
    space. *)
Theorem scaling_linearity
    (get_text_length : string -> Q -> Q) (old_dir new_dir out_dir : string)
    (q base_font_size : Q) (st : Locals) (d : WordDiff) (p : Placement) :
  let self := init old_dir new_dir out_dir q base_font_size in
  let x := bbox_0 (wd_bbox d) * q in
  let y := bbox_1 (wd_bbox d) * q in
  let space_width := get_text_length " " (font_size self) in
  let arrow_width := get_text_length " >" (font_size self) in
  place get_text_length self st d = Ok p ->
  y0 (pl_text_rect p) = y - base_font_size * q /\
  ((forall last_x, Py.get (current_x_position st) y = Some last_x ->
                   last_x + space_width <= x) ->
   x0 (pl_text_rect p) = x) /\
  (forall last_x, Py.get (current_x_position st) y = Some last_x ->
                  x < last_x + space_width ->
                  x0 (pl_text_rect p) = last_x + arrow_width + space_width).
Proof.
  intros self x y space_width arrow_width Hp.
  destruct (place_fields _ _ _ _ _ Hp) as (_ & Hy & Hov & Hr).
  change (bbox_0 (wd_bbox d) * quality self) with x in Hov.
  change (bbox_1 (wd_bbox d) * quality self) with y in Hov, Hy.
  rewrite Hr. simpl. split; [now rewrite Hy|]. split.
  - intro Hclear. rewrite avoid_overlap_clear in Hov by exact Hclear.
    now injection Hov.
  - intros last_x Hget Hlt.
    rewrite (avoid_overlap_collide _ _ _ _ _ last_x Hget Hlt) in Hov.
    now injection Hov.
Qed.

(** ** The sample pass, evaluated *)

Example sample_font_size : font_size Sample.comparer = 16.
Proof. reflexivity. Qed.

Example sample_hello_width :
  Sample.measure "hello" (font_size Sample.comparer) = 40.
Proof. reflexivity. Qed.

Example sample_after_hello :
  loop Sample.measure Sample.comparer (start Sample.blank) [Sample.hello]
  = Ok Sample.after_hello.
Proof. reflexivity. Qed.

Example sample_after_world :
  loop Sample.measure Sample.comparer Sample.after_hello [Sample.world]
  = Ok Sample.after_world.
Proof. reflexivity. Qed.

Example sample_world_placement :
  place Sample.measure Sample.comparer Sample.after_hello Sample.world
  = Ok Sample.world_placement.
Proof. reflexivity. Qed.

Example sample_nothing_placement :
  place Sample.measure Sample.comparer (start Sample.blank) Sample.nothing
  = Ok Sample.nothing_placement.
Proof. reflexivity. Qed.

Example sample_unmarked_first :
  add_text_differences Sample.measure Sample.comparer Sample.blank
    [Sample.unmarked; Sample.hello]
  = Raise (UnboundLocalError "word_text").
Proof. reflexivity. Qed.

(** An unmarked word after a marked one is drawn with the text and the
    colour of the word before it. *)
Example sample_unmarked_later :
  add_text_differences Sample.measure Sample.comparer Sample.blank
    [Sample.hello; Sample.unmarked]
  = Ok (mkOutPage 1190 1684 None
          [Sample.hello_box;
           mkTextBox (mkRect 20 24 60 72) "hello" 16 green]).
Proof. reflexivity. Qed.

Lemma sample_measure_nonneg (s : string) (fsz : Q) :
  0 <= fsz -> 0 <= Sample.measure s fsz.
Proof.
  intro H. unfold Sample.measure. rewrite Qred_correct.
  assert (0 <= inject_Z (Z.of_nat (String.length s))).
  { change 0 with (inject_Z 0). rewrite <- Zle_Qle. lia. }
  unfold Qdiv. apply Qmult_le_0_compat; [|unfold Qle; simpl; lia].
  now apply Qmult_le_0_compat.
Qed.

(** ** The label-pass properties on the sample pass *)


Lemma rightmost_extent_monotone_witness :
  exists v',
    Py.get (current_x_position Sample.after_world) 100 = Some v' /\ 90 <= v'.
Proof.
  apply (rightmost_extent_monotone Sample.measure Sample.comparer
           [Sample.world] Sample.after_hello Sample.after_world 100 90).
  - intro s. apply sample_measure_nonneg. vm_compute. discriminate.
  - reflexivity.
  - reflexivity.
Defined.

Lemma degenerate_label_dropped_witness :
  (exists st',
     body Sample.measure Sample.comparer (start Sample.blank) Sample.nothing
       = Ok st' /\
     pg_textboxes (page st') = [] /\
     current_x_position st' = []) /\
  (exists st',
     body Sample.measure Sample.comparer Sample.after_hello Sample.nothing
       = Ok st' /\
     pg_textboxes (page st') = [Sample.hello_box; Sample.arrow_box] /\
     current_x_position st' = [(100, 90)]) /\
  (exists st' c,
     body Sample.measure Sample.comparer Sample.after_hello Sample.world
       = Ok st' /\
     pg_textboxes (page st') =
       [Sample.hello_box; Sample.arrow_box;
        mkTextBox (mkRect 114 84 154 132) "world" 16 c] /\
     Py.get (current_x_position st') 100 = Some 154).
Proof.
  split; [|split].
  - destruct (degenerate_label_dropped Sample.measure Sample.comparer
                (start Sample.blank) Sample.nothing Sample.nothing_placement
                (start_bound_together Sample.blank) eq_refl)
      as (Hdrop & _ & _).
    destruct (Hdrop (or_intror eq_refl)) as (st' & Hbody & Hpg & Hcxp).
    exists st'. auto.
  - destruct (degenerate_label_dropped Sample.measure Sample.comparer
                Sample.after_hello Sample.nothing Sample.nothing_collides
                (or_introl (ex_intro _ green
                   (ex_intro _ "hello" (conj eq_refl eq_refl)))) eq_refl)
      as (Hdrop & _ & _).
    destruct (Hdrop (or_intror eq_refl)) as (st' & Hbody & Hpg & Hcxp).
    exists st'. auto.
  - destruct (degenerate_label_dropped Sample.measure Sample.comparer
                Sample.after_hello Sample.world Sample.world_placement
                (or_introl (ex_intro _ green
                   (ex_intro _ "hello" (conj eq_refl eq_refl)))) eq_refl)
      as (_ & Hdraw & _).
    destruct (Hdraw (conj eq_refl eq_refl)) as (st' & c & Hbody & Hpg & _ & Hget).
    exists st', c. auto.
Defined.

(** C3 as the specification words it fails: the word without text, met
    after "hello" on the same line, has an empty rectangle and no label,
    yet the iteration draws the arrow " >" at x = 90. *)
Lemma degenerate_drop_counterexample :
  loop Sample.measure Sample.comparer (start Sample.blank) [Sample.hello]
    = Ok Sample.after_hello /\
  place Sample.measure Sample.comparer Sample.after_hello Sample.nothing
    = Ok Sample.nothing_collides /\
  is_empty (pl_text_rect Sample.nothing_collides) = true /\
  body Sample.measure Sample.comparer Sample.after_hello Sample.nothing
    = Ok Sample.after_nothing /\
  pg_textboxes (page Sample.after_hello) = [Sample.hello_box] /\
  pg_textboxes (page Sample.after_nothing)
    = [Sample.hello_box; Sample.arrow_box] /\
  ~ degenerate_drop_claim.
Proof.
  repeat split; try reflexivity.
  intro Hclaim.
  destruct (Hclaim Sample.measure Sample.comparer Sample.blank [Sample.hello]
              Sample.after_hello Sample.after_nothing Sample.nothing
              Sample.nothing_collides eq_refl eq_refl eq_refl)
    as (Hdrop & _).
  destruct (Hdrop (or_intror eq_refl)) as (Hpg & _).
  discriminate Hpg.
Qed.

Lemma label_colors_witness :
  exists p st' labels,
    place Sample.measure Sample.comparer Sample.after_hello Sample.world
      = Ok p /\
    body Sample.measure Sample.comparer Sample.after_hello Sample.world
      = Ok st' /\
    pg_textboxes (page st') =
      (pg_textboxes (page Sample.after_hello)
       ++ arrow_calls (pl_arrow p) ++ labels)%list /\
    (forall a, In a (arrow_calls (pl_arrow p)) ->
               tb_text a = " >" /\ tb_color a = black) /\
    (forall l, In l labels -> tb_color l = red).
Proof.
  destruct (label_colors Sample.measure Sample.comparer Sample.after_hello
              Sample.world eq_refl)
    as (p & st' & labels & Hp & Hb & Hpg & Harrow & _ & _ & _ & Hred).
  exists p, st', labels. repeat split; try assumption.
  - apply Harrow; assumption.
  - apply Harrow; assumption.
  - apply Hred. reflexivity.
Defined.

Lemma marker_precondition_witness :
  (exists pg',
     add_text_differences Sample.measure Sample.comparer Sample.blank
       [Sample.hello; Sample.world] = Ok pg') /\
  add_text_differences Sample.measure Sample.comparer Sample.blank
    [Sample.unmarked; Sample.hello] = Raise (UnboundLocalError "word_text").
Proof.
  split.
  - apply (proj1 (marker_precondition Sample.measure Sample.comparer
                    Sample.blank [Sample.hello; Sample.world])).
    repeat constructor.
  - apply (proj2 (marker_precondition Sample.measure Sample.comparer
                    Sample.blank [Sample.unmarked; Sample.hello])
             Sample.unmarked [Sample.hello] eq_refl eq_refl).
Defined.

(** C5 as the specification words it fails: "world", whose bounding box
    starts at x = 30 (60 after scaling), is drawn at x = 114 when it
    follows "hello" on the same line. *)
Lemma scaling_linearity_counterexample :
  loop Sample.measure Sample.comparer (start Sample.blank) [Sample.hello]
    = Ok Sample.after_hello /\
  place Sample.measure Sample.comparer Sample.after_hello Sample.world
    = Ok Sample.world_placement /\
  drawable (pl_text_rect Sample.world_placement) = true /\
  bbox_0 (wd_bbox Sample.world) * quality Sample.comparer == 60 /\
  x0 (pl_text_rect Sample.world_placement) == 114 /\
  ~ scaling_linearity_claim.
Proof.
  repeat split; try reflexivity.
  intro Hclaim.
  destruct (Hclaim Sample.measure "./Old_Documents" "./New_Documents"
              "./Output" 2 8 Sample.blank [Sample.hello] Sample.after_hello
              Sample.world Sample.world_placement eq_refl eq_refl eq_refl)
    as [Hx _].
  vm_compute in Hx. discriminate.
Qed.

Lemma scaling_linearity_witness :
  y0 (pl_text_rect Sample.world_placement) = 50 * 2 - 8 * 2 /\
  x0 (pl_text_rect Sample.nothing_placement) = 40 * 2 /\
  x0 (pl_text_rect Sample.world_placement) =
    90 + Sample.measure " >" 16 + Sample.measure " " 16.
Proof.
  split; [|split].
  - apply (scaling_linearity Sample.measure "./Old_Documents"
             "./New_Documents" "./Output" 2 8 Sample.after_hello
             Sample.world Sample.world_placement eq_refl).
  - apply (proj1 (proj2 (scaling_linearity Sample.measure "./Old_Documents"
             "./New_Documents" "./Output" 2 8 (start Sample.blank)
             Sample.nothing Sample.nothing_placement eq_refl))).
    simpl. discriminate.
  - apply (proj2 (proj2 (scaling_linearity Sample.measure "./Old_Documents"
             "./New_Documents" "./Output" 2 8 Sample.after_hello
             Sample.world Sample.world_placement eq_refl)) 90).
    + reflexivity.
    + vm_compute. reflexivity.
Defined.

(** ** Facts about lists of pages *)

Lemma skipn_nth_error {A} (l : list A) (k : nat) (x : A) :
  nth_error l k = Some x -> skipn k l = x :: skipn (S k) l.
Proof.
  revert l. induction k as [|k IH]; intros [|a l]; simpl; try discriminate.
  - now intros [= ->].
  - intro H. now rewrite (IH l H).
Qed.

Lemma combine_firstn_min {A B} (l : list A) (l' : list B) :
  combine (firstn (Nat.min (List.length l) (List.length l')) l)
          (firstn (Nat.min (List.length l) (List.length l')) l')
  = combine l l'.
Proof.
  revert l'. induction l as [|a l IH]; intros [|b l']; simpl; try reflexivity.
  now rewrite IH.
Qed.

Lemma combine_nth_error {A B} (l : list A) (l' : list B) (i : nat)
    (a : A) (b : B) :
  nth_error (combine l l') i = Some (a, b) <->
  nth_error l i = Some a /\ nth_error l' i = Some b.
Proof.
  revert l l'. induction i as [|i IH]; intros [|x l] [|y l']; simpl;
    try (split; [discriminate | intros [H1 H2]; discriminate]).
  - split; [intros [= -> ->]; auto | intros [[= ->] [= ->]]; reflexivity].
  - apply IH.
Qed.

(** ** Facts about the page loop *)

Section DocumentFacts.

Variable Page : Type.
Variable Text : Type.
Variable render_page_to_image : Page -> Q -> Q -> Pixmap.
Variable image_utils_overlay_differences :
  Image -> Image -> Z * Z * Z -> Q -> option Image.
Variable extract_text : Page -> Text.
Variable compare_text : Text -> Text -> list WordDiff.
Variable get_text_length : string -> Q -> Q.
Variable self : PDFComparer.

Local Abbreviation run_pair :=
  (compare_pair Page Text render_page_to_image image_utils_overlay_differences
                extract_text compare_text get_text_length self).
Local Abbreviation run_pairs :=
  (compare_pairs Page Text render_page_to_image
                 image_utils_overlay_differences
                 extract_text compare_text get_text_length self).
Local Abbreviation run_page_loop :=
  (page_loop Page Text render_page_to_image image_utils_overlay_differences
             extract_text compare_text get_text_length self).
Local Abbreviation run_loop :=
  (compare_loop Page Text render_page_to_image image_utils_overlay_differences
                extract_text compare_text get_text_length self).
Local Abbreviation run_docs :=
  (compare_docs Page Text render_page_to_image image_utils_overlay_differences
                extract_text compare_text get_text_length self).
Local Abbreviation overlay_of :=
  (page_overlay Page render_page_to_image image_utils_overlay_differences
                self).
Local Abbreviation diffs_of :=
  (extract_and_compare_text Page Text extract_text compare_text).
Local Abbreviation differs :=
  (page_differs Page Text render_page_to_image image_utils_overlay_differences
                extract_text compare_text self).
Local Abbreviation images_of :=
  (render_pages_to_images Page render_page_to_image self).

(** The loop over page numbers is the traversal of the page pairs. *)
Lemma page_loop_pairs (old_doc new_doc : list Page) (m k : nat)
    (st : DocState) :
  (k + m <= List.length old_doc)%nat ->
  (k + m <= List.length new_doc)%nat ->
  run_page_loop old_doc new_doc (seq k m) st =
  run_pairs (combine (firstn m (skipn k old_doc))
                     (firstn m (skipn k new_doc))) st.
Proof.
  revert k st. induction m as [|m IH]; intros k st Ho Hn; simpl;
    [reflexivity|].
  destruct (nth_error old_doc k) as [op|] eqn:Eo.
  2: { apply nth_error_None in Eo. lia. }
  destruct (nth_error new_doc k) as [np|] eqn:En.
  2: { apply nth_error_None in En. lia. }
  rewrite (skipn_nth_error _ _ _ Eo), (skipn_nth_error _ _ _ En). simpl.
  unfold compare_page, load_page. rewrite Eo, En. simpl.
  destruct (run_pair op np st) as [st'|e]; simpl; [|reflexivity].
  apply IH; lia.
Qed.

Lemma compare_loop_pairs (old_doc new_doc : list Page) :
  run_loop old_doc new_doc =
  run_pairs (combine old_doc new_doc) (mkDocState false []).
Proof.
  unfold compare_loop, page_nums, range.
  rewrite page_loop_pairs by lia. simpl.
  now rewrite combine_firstn_min.
Qed.

(** C6: the page loop handles the page pairs (old page i, new page i)
    for i below the smaller of the two page counts, in increasing order
    of i, and nothing else: the result is the traversal of exactly these
    pairs, and the pages of the longer document beyond them change
    nothing of what [compare_pdfs] returns. *)
Theorem truncation (old_doc new_doc : list Page) :
  let n := Nat.min (List.length old_doc) (List.length new_doc) in
  let pairs := combine (firstn n old_doc) (firstn n new_doc) in
  run_loop old_doc new_doc = run_pairs pairs (mkDocState false []) /\
  List.length pairs = n /\
  (forall i op np,
     nth_error pairs i = Some (op, np) <->
     (i < n)%nat /\ nth_error old_doc i = Some op
     /\ nth_error new_doc i = Some np) /\
  run_docs old_doc new_doc = run_docs (firstn n old_doc) (firstn n new_doc).
Proof.
  intros n pairs. unfold pairs, n. rewrite combine_firstn_min.
  split; [apply compare_loop_pairs|].
  split; [apply length_combine|].
  split.
  - intros i op np. rewrite combine_nth_error. split.
    + intros [Ho Hn]. repeat split; try assumption.
      assert (nth_error old_doc i <> None) as H1 by congruence.
      assert (nth_error new_doc i <> None) as H2 by congruence.
      apply nth_error_Some in H1, H2. lia.
    + tauto.
  - unfold compare_docs. rewrite !compare_loop_pairs.
    now rewrite combine_firstn_min.
Qed.

(** The label pass draws on the page and leaves its size and image. *)
Lemma body_frame (st st' : Locals) (d : WordDiff) :
  body get_text_length self st d = Ok st' ->
  pg_width (page st') = pg_width (page st) /\
  pg_height (page st') = pg_height (page st) /\
  pg_image (page st') = pg_image (page st).
Proof.
  unfold body.
  destruct (place get_text_length self st d) as [p|e] eqn:Hp; [|discriminate].
  destruct (place_locals _ _ _ _ _ Hp) as (_ & _ & _ & Hpg).
  simpl. unfold commit. rewrite Hpg.
  destruct (drawable (pl_text_rect p)).
  - destruct (text_color (pl_locals p)); [|discriminate].
    simpl. intros [= <-]. simpl. destruct (pl_arrow p); simpl; auto.
  - intros [= <-]. simpl. destruct (pl_arrow p); simpl; auto.
Qed.

Lemma loop_frame (ds : list WordDiff) (st st' : Locals) :
  loop get_text_length self st ds = Ok st' ->
  pg_width (page st') = pg_width (page st) /\
  pg_height (page st') = pg_height (page st) /\
  pg_image (page st') = pg_image (page st).
Proof.
  revert st. induction ds as [|d ds IH]; simpl; intro st.
  - intros [= <-]. auto.
  - destruct (body get_text_length self st d) as [st1|e1] eqn:Hb;
      [|discriminate].
    simpl. intro Hl. destruct (IH _ Hl) as (H1 & H2 & H3).
    destruct (body_frame _ _ _ Hb) as (G1 & G2 & G3).
    repeat split; congruence.
Qed.

Lemma add_text_differences_frame (pg pg' : OutPage) (ds : list WordDiff) :
  add_text_differences get_text_length self pg ds = Ok pg' ->
  pg_width pg' = pg_width pg /\
  pg_height pg' = pg_height pg /\
  pg_image pg' = pg_image pg.
Proof.
  unfold add_text_differences.
  destruct (loop get_text_length self (start pg) ds) as [st'|e] eqn:Hl;
    [|discriminate].
  simpl. intros [= <-]. exact (loop_frame _ _ _ Hl).
Qed.

(** A page pair that does not differ leaves the document state alone. *)
Lemma compare_pair_same (op np : Page) (st : DocState) :
  differs op np = false -> run_pair op np st = Ok st.
Proof.
  unfold page_differs, page_overlay, compare_pair.
  destruct (images_of op np) as [old_image_pil new_image_pil].
  intro H. unfold assemble. now rewrite H.
Qed.

(** A page pair that differs appends one page, sized as the rendered old
    page and holding the overlay. *)
Lemma compare_pair_differs (op np : Page) (st : DocState) :
  Forall (fun d => has_marker (wd_word d) = true) (diffs_of op np) ->
  differs op np = true ->
  exists pg,
    run_pair op np st = Ok (mkDocState true (output_doc st ++ [pg])%list) /\
    pg_image pg = overlay_of op np /\
    pg_width pg = im_width (fst (images_of op np)) /\
    pg_height pg = im_height (fst (images_of op np)) /\
    add_text_differences get_text_length self
      (mkOutPage (pg_width pg) (pg_height pg) (pg_image pg) [])
      (diffs_of op np) = Ok pg.
Proof.
  intros Hmarked. unfold page_differs, page_overlay, compare_pair.
  destruct (images_of op np) as [old_image_pil new_image_pil]. simpl.
  intro H. unfold assemble. rewrite H.
  set (pg0 := match overlay_differences image_utils_overlay_differences
                      old_image_pil new_image_pil with
              | Some img =>
                  insert_image
                    (new_page (im_width old_image_pil)
                              (im_height old_image_pil)) img
              | None =>
                  new_page (im_width old_image_pil) (im_height old_image_pil)
              end).
  assert (Hpg0 : pg0 = mkOutPage (im_width old_image_pil)
                         (im_height old_image_pil)
                         (overlay_differences image_utils_overlay_differences
                            old_image_pil new_image_pil) []).
  { unfold pg0. now destruct (overlay_differences _ _ _). }
  destruct (diffs_of op np) as [|d ds] eqn:Hds.
  - simpl. exists pg0. rewrite Hpg0. simpl. auto.
  - cbn [truthy].
    destruct (pass_marked_total get_text_length self pg0 (d :: ds) Hmarked)
      as (pg' & Hadd).
    rewrite Hadd. simpl. exists pg'.
    destruct (add_text_differences_frame _ _ _ Hadd) as (H1 & H2 & H3).
    rewrite H1, H2, H3. rewrite Hpg0 in Hadd |- *. simpl. auto.
Qed.

Lemma compare_pairs_same (pairs : list (Page * Page)) (st : DocState) :
  (forall op np, In (op, np) pairs -> differs op np = false) ->
  run_pairs pairs st = Ok st.
Proof.
  induction pairs as [|[op np] pairs IH]; simpl; intro H; [reflexivity|].
  rewrite compare_pair_same by (apply H; auto). simpl.
  apply IH. intros. apply H. auto.
Qed.

Lemma compare_pairs_differs (pairs : list (Page * Page)) (st : DocState) :
  differ_marks_words Page Text extract_text compare_text ->
  exists added,
    run_pairs pairs st =
      Ok (mkDocState
            (differences_found st
             || existsb (fun pr => differs (fst pr) (snd pr)) pairs)
            (output_doc st ++ added)%list) /\
    forall op np,
      In (op, np) pairs -> differs op np = true ->
      exists pg,
        In pg added /\
        pg_image pg = overlay_of op np /\
        pg_width pg = im_width (fst (images_of op np)) /\
        pg_height pg = im_height (fst (images_of op np)) /\
        add_text_differences get_text_length self
          (mkOutPage (pg_width pg) (pg_height pg) (pg_image pg) [])
          (diffs_of op np) = Ok pg.
Proof.
  intro Hc. revert st.
  induction pairs as [|[op np] pairs IH]; intro st; simpl.
  - exists []. rewrite orb_false_r, app_nil_r. destruct st. simpl.
    split; [reflexivity | intros ? ? []].
  - destruct (differs op np) eqn:Hd.
    + destruct (compare_pair_differs op np st (Hc op np) Hd)
        as (pg & Hrun & Hprops).
      rewrite Hrun. simpl.
      destruct (IH (mkDocState true (output_doc st ++ [pg])%list))
        as (added & Hrest & Hall).
      exists (pg :: added). rewrite Hrest. simpl.
      rewrite orb_true_r, <- app_assoc. simpl. split; [reflexivity|].
      intros op' np' [[= <- <-] | Hin] Hd'.
      * exists pg. split; [now left | exact Hprops].
      * destruct (Hall op' np' Hin Hd') as (pg' & Hin' & Hp').
        exists pg'. split; [now right | exact Hp'].
    + rewrite compare_pair_same by exact Hd. simpl.
      destruct (IH st) as (added & Hrest & Hall).
      exists added. rewrite Hrest. split; [reflexivity|].
      intros op' np' [[= <- <-] | Hin] Hd'; [congruence|].
      apply Hall; assumption.
Qed.


(** C7: when every compared page pair has no overlay and no word diffs,
    [compare_pdfs] finds no differences and returns no document.  When
    a compared page pair has an overlay or word diffs, [compare_pdfs]
    returns a document (so differences were found) that holds a page for
    that pair: sized as the rendered old page, with the overlay as image
    and the labels of the pair's word diffs.  The second part takes the
    word differ to return marked words. *)
Theorem no_op_identity (old_doc new_doc : list Page) :
  ((forall i op np,
      nth_error old_doc i = Some op -> nth_error new_doc i = Some np ->
      overlay_of op np = None /\ diffs_of op np = []) ->
   run_loop old_doc new_doc = Ok (mkDocState false []) /\
   run_docs old_doc new_doc = Ok None) /\
  (differ_marks_words Page Text extract_text compare_text ->
   forall i op np,
     nth_error old_doc i = Some op -> nth_error new_doc i = Some np ->
     overlay_of op np <> None \/ diffs_of op np <> [] ->
     exists doc pg,
       run_loop old_doc new_doc = Ok (mkDocState true doc) /\
       run_docs old_doc new_doc = Ok (Some doc) /\
       In pg doc /\
       pg_image pg = overlay_of op np /\
       pg_width pg = im_width (fst (images_of op np)) /\
       pg_height pg = im_height (fst (images_of op np)) /\
       add_text_differences get_text_length self
         (mkOutPage (pg_width pg) (pg_height pg) (pg_image pg) [])
         (diffs_of op np) = Ok pg).
Proof.
  split.
  - intro Hnone.
    assert (Hloop : run_loop old_doc new_doc = Ok (mkDocState false [])).
    { rewrite compare_loop_pairs. apply compare_pairs_same.
      intros op np Hin. apply In_nth_error in Hin. destruct Hin as (i & Hi).
      apply combine_nth_error in Hi. destruct Hi as (Ho & Hn).
      destruct (Hnone i op np Ho Hn) as (H1 & H2).
      unfold page_differs. now rewrite H1, H2. }
    split; [exact Hloop|]. unfold compare_docs. now rewrite Hloop.
  - intros Hc i op np Ho Hn Hdiff.
    assert (Hin : In (op, np) (combine old_doc new_doc)).
    { apply (nth_error_In _ i). apply combine_nth_error. auto. }
    assert (Hd : differs op np = true).
    { unfold page_differs. destruct Hdiff as [H | H].
      - destruct (overlay_of op np); [reflexivity | congruence].
      - destruct (diffs_of op np); [congruence | apply orb_true_r]. }
    destruct (compare_pairs_differs (combine old_doc new_doc)
                (mkDocState false []) Hc) as (added & Hrun & Hall).
    destruct (Hall op np Hin Hd) as (pg & Hpg & Hprops).
    assert (He : existsb (fun pr => differs (fst pr) (snd pr))
                         (combine old_doc new_doc) = true).
    { apply existsb_exists. exists (op, np). auto. }
    simpl in Hrun. rewrite He in Hrun.
    exists added, pg.
    assert (Hloop : run_loop old_doc new_doc = Ok (mkDocState true added)).
    { rewrite compare_loop_pairs. exact Hrun. }
    split; [exact Hloop|]. split; [|auto].
    unfold compare_docs. now rewrite Hloop.
Qed.


(** A missing counterpart is reported and then opened all the same: the
    run ends there, whatever files remain. *)
Lemma missing_counterpart_raises (fs : FileSystem Page)
    (old_file : string) (rest : list string) (log : list event)
    (old_doc : list Page) :
  pymupdf_open Page fs (old_documents_dir self) old_file = Ok old_doc ->
  path_exists Page fs (new_documents_dir self) old_file = false ->
  files_loop Page Text render_page_to_image image_utils_overlay_differences
    extract_text compare_text get_text_length self fs (old_file :: rest) log
  = ((log ++ [PrintNewFileNotFound old_file])%list,
     Some (FileNotFoundError (new_documents_dir self) old_file)).
Proof.
  intros Hold Hmissing. simpl. rewrite Hmissing. simpl.
  unfold compare_pdfs. rewrite Hold. simpl.
  assert (Hnew : pymupdf_open Page fs (new_documents_dir self) old_file
                 = Raise (FileNotFoundError (new_documents_dir self) old_file)).
  { revert Hmissing. unfold path_exists, pymupdf_open, Document.
    destruct (lookup fs (new_documents_dir self)) as [entries|];
      [|intros _; reflexivity].
    destruct (lookup entries old_file);
      [discriminate | intros _; reflexivity]. }
  now rewrite Hnew.
Qed.


End DocumentFacts.

(** ** Runs of the comparison *)

Section RunFacts.

Variable Page : Type.
Variable Text : Type.
Variable Renderer : Page -> Q -> Q -> Pixmap -> Prop.
Variable Overlay : Image -> Image -> Z * Z * Z -> Q -> option Image -> Prop.
Variable Extractor : Page -> Text -> Prop.
Variable TextDiffer : Text -> Text -> list WordDiff -> Prop.
Variable get_text_length : string -> Q -> Q.
Variable self : PDFComparer.

Local Abbreviation run_of_page :=
  (page_run Page Text Renderer Overlay Extractor TextDiffer
            get_text_length self).
Local Abbreviation run_of_loop :=
  (loop_run Page Text Renderer Overlay Extractor TextDiffer
            get_text_length self).
Local Abbreviation run_of_docs :=
  (docs_run Page Text Renderer Overlay Extractor TextDiffer
            get_text_length self).

Hypothesis Renderer_det : deterministic_Renderer Page Renderer.
Hypothesis Overlay_det : deterministic_Overlay Overlay.
Hypothesis Extractor_det : deterministic_Extractor Page Text Extractor.
Hypothesis TextDiffer_det : deterministic_TextDiffer Text TextDiffer.

Lemma page_run_deterministic (old_doc new_doc : list Page) (page_num : nat)
    (st : DocState) (r1 r2 : Py.result DocState) :
  run_of_page old_doc new_doc page_num st r1 ->
  run_of_page old_doc new_doc page_num st r2 ->
  r1 = r2.
Proof.
  intros H1 H2.
  destruct H1 as [e1 Ho1 | op1 e1 Ho1 Hn1
                 | op1 np1 oi1 ni1 c1 ot1 nt1 w1 Ho1 Hn1 Hr1 Hr1' Hov1
                   He1 He1' Hd1];
  destruct H2 as [e2 Ho2 | op2 e2 Ho2 Hn2
                 | op2 np2 oi2 ni2 c2 ot2 nt2 w2 Ho2 Hn2 Hr2 Hr2' Hov2
                   He2 He2' Hd2];
    try congruence.
  assert (op1 = op2) by congruence. subst op2.
  assert (np1 = np2) by congruence. subst np2.
  assert (oi1 = oi2) by (eapply Renderer_det; eassumption). subst oi2.
  assert (ni1 = ni2) by (eapply Renderer_det; eassumption). subst ni2.
  assert (c1 = c2) by (eapply Overlay_det; eassumption). subst c2.
  assert (ot1 = ot2) by (eapply Extractor_det; eassumption). subst ot2.
  assert (nt1 = nt2) by (eapply Extractor_det; eassumption). subst nt2.
  assert (w1 = w2) by (eapply TextDiffer_det; eassumption). subst w2.
  reflexivity.
Qed.

Lemma loop_run_deterministic (old_doc new_doc : list Page)
    (nums : list nat) (st : DocState) (r1 r2 : Py.result DocState) :
  run_of_loop old_doc new_doc nums st r1 ->
  run_of_loop old_doc new_doc nums st r2 ->
  r1 = r2.
Proof.
  intro H1. revert r2.
  induction H1 as [st | n rest st st1 r1 Hp1 Hl1 IH | n rest st e1 Hp1];
    intros r2 H2; inversion H2; subst.
  - reflexivity.
  - match goal with
    | H : page_run _ _ _ _ _ _ _ _ _ _ _ _ (Ok ?s) |- _ =>
        assert (E : Ok st1 = Ok s)
          by (eapply page_run_deterministic; eassumption)
    end.
    injection E as <-. apply IH. assumption.
  - match goal with
    | H : page_run _ _ _ _ _ _ _ _ _ _ _ _ (Raise ?e) |- _ =>
        assert (E : Ok st1 = Raise e)
          by (eapply page_run_deterministic; eassumption)
    end.
    discriminate.
  - match goal with
    | H : page_run _ _ _ _ _ _ _ _ _ _ _ _ (Ok ?s) |- _ =>
        assert (E : Raise e1 = Ok s)
          by (eapply page_run_deterministic; eassumption)
    end.
    discriminate.
  - eapply page_run_deterministic; eassumption.
Qed.

End RunFacts.

(** C9: with a deterministic renderer, overlay, text extractor and word
    differ, any two runs of the page loop of [compare_pdfs] over the same
    two documents end the same way: with the same exception, or with the
    same [differences_found] and the same output pages, hence the same
    label calls (text, colour, rectangle) in the same order; and
    [compare_pdfs] returns the same. *)
Theorem runs_identical
    (Page Text : Type)
    (Renderer : Page -> Q -> Q -> Pixmap -> Prop)
    (Overlay : Image -> Image -> Z * Z * Z -> Q -> option Image -> Prop)
    (Extractor : Page -> Text -> Prop)
    (TextDiffer : Text -> Text -> list WordDiff -> Prop)
    (get_text_length : string -> Q -> Q) (self : PDFComparer)
    (old_doc new_doc : list Page) (r1 r2 : Py.result DocState) :
  deterministic_Renderer Page Renderer ->
  deterministic_Overlay Overlay ->
  deterministic_Extractor Page Text Extractor ->
  deterministic_TextDiffer Text TextDiffer ->
  docs_run Page Text Renderer Overlay Extractor TextDiffer
           get_text_length self old_doc new_doc r1 ->
  docs_run Page Text Renderer Overlay Extractor TextDiffer
           get_text_length self old_doc new_doc r2 ->
  r1 = r2 /\
  (forall st1 st2, r1 = Ok st1 -> r2 = Ok st2 ->
     differences_found st1 = differences_found st2 /\
     map pg_textboxes (output_doc st1) = map pg_textboxes (output_doc st2) /\
     finish st1 = finish st2).
Proof.
  intros HR HO HE HT H1 H2.
  assert (E : r1 = r2).
  { eapply loop_run_deterministic; eassumption. }
  split; [exact E|].
  intros st1 st2 -> E2. rewrite E2 in E. injection E as ->. auto.
Qed.

(** The functional model is a run when the collaborators are
    functions. *)
Section FunctionalRuns.

Variable Page : Type.
Variable Text : Type.
Variable render_page_to_image : Page -> Q -> Q -> Pixmap.
Variable image_utils_overlay_differences :
  Image -> Image -> Z * Z * Z -> Q -> option Image.
Variable extract_text : Page -> Text.
Variable compare_text : Text -> Text -> list WordDiff.
Variable get_text_length : string -> Q -> Q.
Variable self : PDFComparer.

Lemma functions_deterministic :
  deterministic_Renderer Page (Renderer_of render_page_to_image) /\
  deterministic_Overlay (Overlay_of image_utils_overlay_differences) /\
  deterministic_Extractor Page Text (Extractor_of extract_text) /\
  deterministic_TextDiffer Text (TextDiffer_of compare_text).
Proof.
  unfold deterministic_Renderer, deterministic_Overlay,
    deterministic_Extractor, deterministic_TextDiffer,
    Renderer_of, Overlay_of, Extractor_of, TextDiffer_of.
  repeat split; intros; congruence.
Qed.

Lemma compare_page_is_run (old_doc new_doc : list Page) (page_num : nat)
    (st : DocState) :
  page_run Page Text (Renderer_of render_page_to_image)
    (Overlay_of image_utils_overlay_differences)
    (Extractor_of extract_text) (TextDiffer_of compare_text)
    get_text_length self old_doc new_doc page_num st
    (compare_page Page Text render_page_to_image
       image_utils_overlay_differences extract_text compare_text
       get_text_length self old_doc new_doc page_num st).
Proof.
  unfold compare_page.
  destruct (load_page Page old_doc page_num) as [op|e] eqn:Ho; simpl.
  2: { now apply page_run_no_old. }
  destruct (load_page Page new_doc page_num) as [np|e] eqn:Hn; simpl.
  2: { now apply page_run_no_new with (old_page := op). }
  unfold compare_pair, render_pages_to_images, overlay_differences,
    extract_and_compare_text.
  eapply page_run_compared; try eassumption; reflexivity.
Qed.

Lemma page_loop_is_run (old_doc new_doc : list Page) (nums : list nat)
    (st : DocState) :
  loop_run Page Text (Renderer_of render_page_to_image)
    (Overlay_of image_utils_overlay_differences)
    (Extractor_of extract_text) (TextDiffer_of compare_text)
    get_text_length self old_doc new_doc nums st
    (page_loop Page Text render_page_to_image
       image_utils_overlay_differences extract_text compare_text
       get_text_length self old_doc new_doc nums st).
Proof.
  revert st. induction nums as [|n nums IH]; intro st; simpl.
  - constructor.
  - pose proof (compare_page_is_run old_doc new_doc n st) as Hp.
    destruct (compare_page _ _ _ _ _ _ _ _ _ _ _ _) as [st'|e]; simpl.
    + eapply loop_run_next; [exact Hp | apply IH].
    + now apply loop_run_raise.
Qed.

Lemma compare_loop_is_run (old_doc new_doc : list Page) :
  docs_run Page Text (Renderer_of render_page_to_image)
    (Overlay_of image_utils_overlay_differences)
    (Extractor_of extract_text) (TextDiffer_of compare_text)
    get_text_length self old_doc new_doc
    (compare_loop Page Text render_page_to_image
       image_utils_overlay_differences extract_text compare_text
       get_text_length self old_doc new_doc).
Proof. apply page_loop_is_run. Qed.

End FunctionalRuns.


(** ** The comparison on the sample documents *)

Section SampleRuns.

Local Abbreviation sample_loop :=
  (compare_loop Sample.Page Sample.Text Sample.render_page_to_image
     Sample.overlay_differences Sample.extract_text Sample.compare_text
     Sample.measure Sample.comparer).
Local Abbreviation sample_docs :=
  (compare_docs Sample.Page Sample.Text Sample.render_page_to_image
     Sample.overlay_differences Sample.extract_text Sample.compare_text
     Sample.measure Sample.comparer).
Local Abbreviation sample_run :=
  (run_comparison Sample.Page Sample.Text Sample.render_page_to_image
     Sample.overlay_differences Sample.extract_text Sample.compare_text
     Sample.measure Sample.comparer).

(** Five old pages against three new ones: the differing fifth old page
    leaves no trace. *)
Example sample_truncation :
  sample_docs Sample.old_doc Sample.new_doc = Ok (Some [Sample.diff_page]) /\
  sample_docs (firstn 3 Sample.old_doc) Sample.new_doc
    = Ok (Some [Sample.diff_page]).
Proof. split; reflexivity. Qed.

Example sample_no_differences :
  sample_docs [Sample.same_page; Sample.same_page] [Sample.same_page]
  = Ok None.
Proof. reflexivity. Qed.

Lemma sample_differ_marks_words :
  differ_marks_words Sample.Page Sample.Text Sample.extract_text
                     Sample.compare_text.
Proof.
  intros op np. unfold extract_and_compare_text, Sample.compare_text.
  apply Forall_app. split; apply Forall_map, Forall_forall; intros w _.
  - unfold wd_word, has_marker, Py.startswith. cbn [fst snd].
    apply orb_true_iff. right. cbn [String.append String.prefix].
    destruct (ascii_dec "-" "-") as [_|N]; [|now elim N].
    destruct (ascii_dec " " " ") as [_|N]; [|now elim N].
    now destruct (fst w).
  - unfold wd_word, has_marker, Py.startswith. cbn [fst snd].
    apply orb_true_iff. left. cbn [String.append String.prefix].
    destruct (ascii_dec "+" "+") as [_|N]; [|now elim N].
    destruct (ascii_dec " " " ") as [_|N]; [|now elim N].
    now destruct (fst w).
Qed.

Lemma no_op_identity_witness :
  sample_docs [Sample.same_page; Sample.same_page] [Sample.same_page]
    = Ok None /\
  exists doc pg,
    sample_docs Sample.old_doc Sample.new_doc = Ok (Some doc) /\
    In pg doc /\
    pg_image pg = Some (mkImage 1190 1684 [Byte.x01]).
Proof.
  split.
  - apply (proj1 (no_op_identity Sample.Page Sample.Text
                    Sample.render_page_to_image Sample.overlay_differences
                    Sample.extract_text Sample.compare_text Sample.measure
                    Sample.comparer
                    [Sample.same_page; Sample.same_page] [Sample.same_page])).
    intros [|[|i]] op np; simpl;
      try discriminate; try (destruct i; discriminate).
    intros [= <-] [= <-]. split; reflexivity.
  - assert (Hd :
      page_overlay Sample.Page Sample.render_page_to_image
        Sample.overlay_differences Sample.comparer
        Sample.old_page Sample.new_page <> None \/
      extract_and_compare_text Sample.Page Sample.Text Sample.extract_text
        Sample.compare_text Sample.old_page Sample.new_page <> []).
    { left. discriminate. }
    destruct (proj2 (no_op_identity Sample.Page Sample.Text
                    Sample.render_page_to_image Sample.overlay_differences
                    Sample.extract_text Sample.compare_text Sample.measure
                    Sample.comparer Sample.old_doc Sample.new_doc)
                sample_differ_marks_words 1%nat Sample.old_page
                Sample.new_page eq_refl eq_refl Hd)
      as (doc & pg & _ & Hdocs & Hin & Himg & _).
    exists doc, pg. auto.
Defined.

Lemma runs_identical_witness :
  sample_loop Sample.old_doc Sample.new_doc
  = sample_loop Sample.old_doc Sample.new_doc /\
  forall st1 st2,
    sample_loop Sample.old_doc Sample.new_doc = Ok st1 ->
    sample_loop Sample.old_doc Sample.new_doc = Ok st2 ->
    differences_found st1 = differences_found st2 /\
    map pg_textboxes (output_doc st1) = map pg_textboxes (output_doc st2) /\
    finish st1 = finish st2.
Proof.
  destruct (functions_deterministic Sample.Page Sample.Text
              Sample.render_page_to_image Sample.overlay_differences
              Sample.extract_text Sample.compare_text)
    as (HR & HO & HE & HT).
  apply (runs_identical Sample.Page Sample.Text
           (Renderer_of Sample.render_page_to_image)
           (Overlay_of Sample.overlay_differences)
           (Extractor_of Sample.extract_text)
           (TextDiffer_of Sample.compare_text)
           Sample.measure Sample.comparer Sample.old_doc Sample.new_doc
           _ _ HR HO HE HT);
    apply compare_loop_is_run.
Defined.

(** C4, on the code: the old directory holds a.pdf and b.pdf and the new
    directory only b.pdf.  The run reports the missing a.pdf, goes on to
    compare the pair all the same, and is ended by the failure to open
    the missing file; b.pdf is never compared. *)
Theorem missing_counterpart_not_skipped :
  path_exists Sample.Page Sample.fs "./New_Documents" "a.pdf" = false /\
  path_exists Sample.Page Sample.fs "./New_Documents" "b.pdf" = true /\
  get_pdf_files Sample.Page Sample.fs "./Old_Documents"
    = Ok ["a.pdf"; "b.pdf"] /\
  sample_run Sample.fs
    = ([PrintNewFileNotFound "a.pdf"],
       Some (FileNotFoundError "./New_Documents" "a.pdf")).
Proof. repeat split; reflexivity. Qed.

(** With both counterparts present the same run handles both files. *)
Example sample_run_complete :
  sample_run
    [("./Old_Documents",
      [("a.pdf", Opens Sample.old_doc); ("b.pdf", Opens [])]);
     ("./New_Documents",
      [("a.pdf", Opens Sample.new_doc); ("b.pdf", Opens [])]);
     ("./Output", [])]
  = ([Save "./Output" "diff_a.pdf" [Sample.diff_page];
      PrintDifferencesFound "./Output" "diff_a.pdf";
      PrintTimeTaken "a.pdf";
      PrintNoDifferences "b.pdf";
      PrintTimeTaken "b.pdf";
      PrintTotalTime],
     None).
Proof. reflexivity. Qed.

Lemma truncation_witness :
  sample_docs Sample.old_doc Sample.new_doc
  = sample_docs (firstn 3 Sample.old_doc) (firstn 3 Sample.new_doc) /\
  (nth_error (combine (firstn 3 Sample.old_doc) (firstn 3 Sample.new_doc)) 1
     = Some (Sample.old_page, Sample.new_page) <->
   (1 < 3)%nat /\ nth_error Sample.old_doc 1 = Some Sample.old_page
   /\ nth_error Sample.new_doc 1 = Some Sample.new_page).
Proof.
  destruct (truncation Sample.Page Sample.Text Sample.render_page_to_image
              Sample.overlay_differences Sample.extract_text
              Sample.compare_text Sample.measure Sample.comparer
              Sample.old_doc Sample.new_doc)
    as (_ & _ & Hnth & Hdocs).
  split; [exact Hdocs | exact (Hnth 1%nat Sample.old_page Sample.new_page)].
Defined.


End SampleRuns.

(** ** Further properties of the label placer *)

Section LabelPlacerFurther.

Variable get_text_length : string -> Q -> Q.
Variable self : PDFComparer.

Local Abbreviation fs := (font_size self).
Local Abbreviation run_body := (body get_text_length self).
Local Abbreviation run_place := (place get_text_length self).
Local Abbreviation run_loop := (loop get_text_length self).
Local Abbreviation run_pass := (add_text_differences get_text_length self).

(** What a successful iteration has done, by the test of line 90. *)
Lemma body_cases (st st' : Locals) (d : WordDiff) :
  run_body st d = Ok st' ->
  exists p,
    run_place st d = Ok p /\
    text_color st' = text_color (pl_locals p) /\
    word_text st' = word_text (pl_locals p) /\
    ((drawable (pl_text_rect p) = false /\
      pg_textboxes (page st') =
        (pg_textboxes (page st) ++ arrow_calls (pl_arrow p))%list /\
      current_x_position st' = current_x_position st)
     \/
     (drawable (pl_text_rect p) = true /\
      exists c,
        text_color (pl_locals p) = Some c /\
        pg_textboxes (page st') =
          (pg_textboxes (page st) ++ arrow_calls (pl_arrow p)
           ++ [mkTextBox (pl_text_rect p) (pl_word_text p) fs c])%list /\
        current_x_position st' =
          Py.set (current_x_position st) (pl_text_pos_y p)
                 (pl_text_pos_x p + pl_text_width p))).
Proof.
  unfold body.
  destruct (run_place st d) as [p|e] eqn:Hp; [|discriminate].
  destruct (place_locals _ _ _ _ _ Hp) as (_ & _ & Hcxp & Hpg).
  simpl. unfold commit. intro Hc. exists p. split; [reflexivity|].
  destruct (drawable (pl_text_rect p)) eqn:Hd.
  - destruct (text_color (pl_locals p)) as [c|] eqn:Hcol; [|discriminate].
    simpl in Hc. injection Hc as <-. simpl.
    split; [reflexivity|]. split; [reflexivity|]. right.
    split; [reflexivity|]. exists c.
    rewrite draw_arrow_textboxes, Hpg, Hcxp, <- app_assoc. auto.
  - injection Hc as <-. simpl.
    split; [reflexivity|]. split; [reflexivity|]. left.
    rewrite draw_arrow_textboxes, Hpg, Hcxp. auto.
Qed.

(** The calls one iteration appends, whichever case it is. *)
Lemma body_appends (st st' : Locals) (d : WordDiff) :
  run_body st d = Ok st' ->
  exists p added,
    run_place st d = Ok p /\
    pg_textboxes (page st') = (pg_textboxes (page st) ++ added)%list /\
    (List.length added <= 2)%nat /\
    forall tb, In tb added ->
      In tb (arrow_calls (pl_arrow p)) \/
      (drawable (pl_text_rect p) = true /\
       exists c, text_color (pl_locals p) = Some c /\
                 tb = mkTextBox (pl_text_rect p) (pl_word_text p) fs c).
Proof.
  intro Hb.
  destruct (body_cases _ _ _ Hb)
    as (p & Hp & _ & _ & [(Hd & Hpg & _) | (Hd & c & Hc & Hpg & _)]).
  - exists p, (arrow_calls (pl_arrow p)). repeat split; auto.
    destruct (pl_arrow p); simpl; lia.
  - exists p, (arrow_calls (pl_arrow p)
               ++ [mkTextBox (pl_text_rect p) (pl_word_text p) fs c])%list.
    repeat split; auto.
    + rewrite length_app. destruct (pl_arrow p); simpl; lia.
    + intros tb Hin. apply in_app_or in Hin.
      destruct Hin as [Hin | [<- | []]]; [now left | right; eauto].
Qed.

Lemma assign_prefix_label_colored (st : Locals) (word : string) :
  label_colored st -> label_colored (assign_prefix st word).
Proof.
  unfold label_colored, assign_prefix. intro H.
  destruct (Py.startswith word "+ "); [simpl; intros c [= <-]; auto|].
  destruct (Py.startswith word "- "); [simpl; intros c [= <-]; auto|].
  exact H.
Qed.

Lemma body_label_colored (st st' : Locals) (d : WordDiff) :
  label_colored st -> run_body st d = Ok st' -> label_colored st'.
Proof.
  intros Hcol Hb.
  destruct (body_cases _ _ _ Hb) as (p & Hp & Hc & _).
  destruct (place_locals _ _ _ _ _ Hp) as (Hl & _).
  unfold label_colored. rewrite Hc, Hl.
  now apply assign_prefix_label_colored.
Qed.

(** The shape of every call one iteration appends: the vertical span is
    written with the expressions of lines 83 and 88. *)
Lemma body_call_shape (st st' : Locals) (d : WordDiff) :
  label_colored st ->
  run_body st d = Ok st' ->
  exists added,
    pg_textboxes (page st') = (pg_textboxes (page st) ++ added)%list /\
    (List.length added <= 2)%nat /\
    forall tb, In tb added ->
      tb_fontsize tb = fs /\
      y0 (tb_rect tb) = bbox_1 (wd_bbox d) * quality self - fs /\
      y1 (tb_rect tb) = bbox_1 (wd_bbox d) * quality self + fs * 2 /\
      (tb_color tb = green \/ tb_color tb = red \/ tb_color tb = black).
Proof.
  intros Hcol Hb.
  destruct (body_appends _ _ _ Hb) as (p & added & Hp & Hpg & Hlen & Hall).
  destruct (place_fields _ _ _ _ _ Hp) as (_ & Hy & _ & Hr).
  exists added. split; [exact Hpg|]. split; [exact Hlen|].
  intros tb Hin. destruct (Hall tb Hin) as [Ha | (Hd & c & Hc & ->)].
  - destruct (place_arrow _ _ _ _ _ _ Hp Ha) as (last_x & _ & -> & _).
    simpl. rewrite Hy. repeat split; auto.
  - destruct (place_locals _ _ _ _ _ Hp) as (Hl & _).
    simpl. rewrite Hr. simpl. rewrite Hy.
    split; [reflexivity|]. split; [reflexivity|]. split; [reflexivity|].
    assert (Hcol' : label_colored (pl_locals p)).
    { rewrite Hl. now apply assign_prefix_label_colored. }
    destruct (Hcol' c Hc); auto.
Qed.

Lemma loop_call_shape (ds : list WordDiff) (st st' : Locals) :
  label_colored st ->
  run_loop st ds = Ok st' ->
  exists added,
    pg_textboxes (page st') = (pg_textboxes (page st) ++ added)%list /\
    (List.length added <= 2 * List.length ds)%nat /\
    forall tb, In tb added ->
      tb_fontsize tb = fs /\
      (tb_color tb = green \/ tb_color tb = red \/ tb_color tb = black) /\
      exists d,
        In d ds /\
        y0 (tb_rect tb) = bbox_1 (wd_bbox d) * quality self - fs /\
        y1 (tb_rect tb) = bbox_1 (wd_bbox d) * quality self + fs * 2.
Proof.
  revert st. induction ds as [|d ds IH]; simpl; intros st Hcol Hl.
  - injection Hl as <-. exists []. rewrite app_nil_r.
    split; [reflexivity|]. split; [simpl; lia | intros tb []].
  - destruct (run_body st d) as [st1|e] eqn:Hb; [|discriminate].
    simpl in Hl.
    destruct (body_call_shape _ _ _ Hcol Hb) as (a1 & Hpg1 & Hlen1 & Hall1).
    destruct (IH st1 (body_label_colored _ _ _ Hcol Hb) Hl)
      as (a2 & Hpg2 & Hlen2 & Hall2).
    exists (a1 ++ a2)%list. rewrite Hpg2, Hpg1, <- app_assoc.
    split; [reflexivity|]. split; [rewrite length_app; lia|].
    intros tb Hin. apply in_app_or in Hin. destruct Hin as [Hin | Hin].
    + destruct (Hall1 tb Hin) as (Hf & Hy0 & Hy1 & Hc).
      split; [exact Hf|]. split; [exact Hc|]. exists d. auto.
    + destruct (Hall2 tb Hin) as (Hf & Hc & d' & Hd' & Hy).
      split; [exact Hf|]. split; [exact Hc|]. exists d'. auto.
Qed.

(** X1: a label pass only draws: it leaves the size and the image of the
    page as they are, keeps the calls already on the page in place, and
    appends at most two calls (an arrow and a label) per word diff. *)
Theorem pass_only_appends (pg pg' : OutPage) (ds : list WordDiff) :
  run_pass pg ds = Ok pg' ->
  pg_width pg' = pg_width pg /\
  pg_height pg' = pg_height pg /\
  pg_image pg' = pg_image pg /\
  exists added,
    pg_textboxes pg' = (pg_textboxes pg ++ added)%list /\
    (List.length added <= 2 * List.length ds)%nat.
Proof.
  intro H.
  destruct (add_text_differences_frame _ _ _ _ _ H) as (H1 & H2 & H3).
  repeat split; try assumption.
  unfold add_text_differences in H.
  destruct (run_loop (start pg) ds) as [st'|e] eqn:Hl; [|discriminate].
  simpl in H. injection H as <-.
  destruct (loop_call_shape ds (start pg) st') as (added & Hpg & Hlen & _);
    [intros c [=] | exact Hl |].
  exists added. auto.
Qed.

(** X2: every call a label pass appends is made at the comparer's scaled
    font size and in green, red or black, and it lies on the line of one
    of the diffs of the pass: its rectangle goes from the scaled y of that
    diff's bounding box minus the font size to that y plus twice the font
    size, as lines 83 and 88 compute them.  This holds for unmarked words
    as well. *)
Theorem pass_call_shape (pg pg' : OutPage) (ds : list WordDiff) :
  run_pass pg ds = Ok pg' ->
  exists added,
    pg_textboxes pg' = (pg_textboxes pg ++ added)%list /\
    forall tb, In tb added ->
      tb_fontsize tb = fs /\
      (tb_color tb = green \/ tb_color tb = red \/ tb_color tb = black) /\
      exists d,
        In d ds /\
        y0 (tb_rect tb) = bbox_1 (wd_bbox d) * quality self - fs /\
        y1 (tb_rect tb) = bbox_1 (wd_bbox d) * quality self + fs * 2.
Proof.
  unfold add_text_differences.
  destruct (run_loop (start pg) ds) as [st'|e] eqn:Hl; [|discriminate].
  simpl. intros [= <-].
  destruct (loop_call_shape ds (start pg) st') as (added & Hpg & _ & Hall);
    [intros c [=] | exact Hl |].
  exists added. auto.
Qed.

(** X3: with non-negative widths for the space and the arrow, a label is
    never placed left of the extent stored for its line: it starts at or
    right of it.  When an arrow is drawn, the arrow starts exactly at the
    stored extent and the label starts one space width after the arrow's
    right edge. *)
Theorem label_right_of_extent (st : Locals) (d : WordDiff) (p : Placement)
    (last_x : Q) :
  0 <= get_text_length " " fs ->
  0 <= get_text_length " >" fs ->
  run_place st d = Ok p ->
  Py.get (current_x_position st) (pl_text_pos_y p) = Some last_x ->
  last_x <= x0 (pl_text_rect p) /\
  forall a, In a (arrow_calls (pl_arrow p)) ->
    x0 (tb_rect a) = last_x /\
    y0 (tb_rect a) = y0 (pl_text_rect p) /\
    y1 (tb_rect a) = y1 (pl_text_rect p) /\
    x0 (pl_text_rect p) = x1 (tb_rect a) + get_text_length " " fs.
Proof.
  intros Hsp Har Hp Hget.
  destruct (place_fields _ _ _ _ _ Hp) as (_ & Hy & Hov & Hr).
  rewrite Hr. simpl. rewrite Hy in Hget.
  destruct (avoid_overlap_cases get_text_length self (current_x_position st)
              (bbox_0 (wd_bbox d) * quality self)
              (bbox_1 (wd_bbox d) * quality self))
    as [(l & Hl & Hlt & E) | (Hclear & E)];
    rewrite E in Hov; injection Hov as Harrow Hx; rewrite Harrow, Hx.
  - assert (l = last_x) by congruence. subst l. split; [lra|].
    intros a [<- | []]. simpl. rewrite Hy. auto.
  - specialize (Hclear last_x Hget). split; [lra | intros a []].
Qed.

(** X4: an iteration changes the dictionary at most under the scaled y of
    its own diff: the extent stored for any other line key is what it
    was. *)
Theorem other_lines_untouched (st st' : Locals) (d : WordDiff) (k : Q) :
  run_body st d = Ok st' ->
  ~ bbox_1 (wd_bbox d) * quality self == k ->
  Py.get (current_x_position st') k = Py.get (current_x_position st) k.
Proof.
  intros Hb Hk.
  destruct (body_cases _ _ _ Hb)
    as (p & Hp & _ & _ & [(_ & _ & ->) | (_ & c & _ & _ & ->)]);
    [reflexivity|].
  destruct (place_fields _ _ _ _ _ Hp) as (_ & Hy & _).
  rewrite get_set, Hy.
  destruct (Qeq_bool _ k) eqn:E; [|reflexivity].
  apply Qeq_bool_iff in E. contradiction.
Qed.

(** X5: a word without marker, met when both prefix locals are assigned,
    is handled with the text and the colour of the marked word before it:
    the iteration succeeds, measures and draws the earlier text in the
    earlier colour at the position of the new bounding box, and leaves
    both locals as they were. *)
Theorem unmarked_word_reuses_previous (st : Locals) (d : WordDiff)
    (w : string) (c : Color) :
  has_marker (wd_word d) = false ->
  word_text st = Some w ->
  text_color st = Some c ->
  exists p st',
    run_place st d = Ok p /\
    run_body st d = Ok st' /\
    pl_word_text p = w /\
    pl_text_width p = get_text_length w fs /\
    pg_textboxes (page st') =
      (pg_textboxes (page st) ++ arrow_calls (pl_arrow p)
       ++ (if drawable (pl_text_rect p)
           then [mkTextBox (pl_text_rect p) w fs c] else []))%list /\
    word_text st' = Some w /\
    text_color st' = Some c.
Proof.
  intros Hm Hw Hc. destruct d as [[word bbox] ct].
  unfold wd_word in Hm. simpl in Hm.
  pose proof (assign_prefix_unmarked st word Hm) as Ha.
  destruct (place_bound get_text_length self st word bbox ct w)
    as (p & Hp & Hl & Hpw & Htw & _).
  { now rewrite Ha. }
  assert (Hc' : text_color (pl_locals p) = Some c) by now rewrite Hl, Ha.
  assert (Hw' : word_text (pl_locals p) = Some w) by now rewrite Hl, Ha.
  assert (Hpg : page (pl_locals p) = page st) by now rewrite Hl, Ha.
  exists p. destruct (drawable (pl_text_rect p)) eqn:Hd.
  - eexists. split; [exact Hp|].
    split; [eapply body_drawn; eassumption|]. simpl.
    rewrite draw_arrow_textboxes, Hpg, Hpw, <- app_assoc. auto.
  - eexists. split; [exact Hp|].
    split; [eapply body_dropped; eassumption|]. simpl.
    rewrite draw_arrow_textboxes, Hpg, app_nil_r. auto.
Qed.

Lemma pass_unmarked_raises (pg : OutPage) (d : WordDiff)
    (rest : list WordDiff) :
  has_marker (wd_word d) = false ->
  run_pass pg (d :: rest) = Raise (UnboundLocalError "word_text").
Proof.
  intro Hm. unfold add_text_differences. simpl. unfold body.
  destruct d as [[word bbox] ct]. unfold wd_word in Hm. simpl in Hm.
  rewrite place_unbound; [reflexivity|].
  now rewrite assign_prefix_unmarked.
Qed.

Lemma pass_raise_inv (pg : OutPage) (ds : list WordDiff) (e : Py.exn) :
  run_pass pg ds = Raise e ->
  e = UnboundLocalError "word_text" /\
  exists d rest, ds = d :: rest /\ has_marker (wd_word d) = false.
Proof.
  destruct ds as [|d rest]; [discriminate|].
  destruct (has_marker (wd_word d)) eqn:Hm.
  - destruct (marked_first_total get_text_length self pg d rest Hm)
      as (pg' & ->). discriminate.
  - rewrite (pass_unmarked_raises pg d rest Hm). intros [= <-]. eauto.
Qed.

(** X6: the one way a label pass fails.  [add_text_differences] raises
    exactly when the list is not empty and its first word carries no
    marker, and the exception is then the unassigned [word_text]; in every
    other case, later unmarked words included, it returns a page. *)
Theorem pass_fails_exactly (pg : OutPage) (ds : list WordDiff) :
  (forall e,
     run_pass pg ds = Raise e <->
     e = UnboundLocalError "word_text" /\
     exists d rest, ds = d :: rest /\ has_marker (wd_word d) = false) /\
  ((exists pg', run_pass pg ds = Ok pg') <->
   ds = [] \/ exists d rest, ds = d :: rest /\ has_marker (wd_word d) = true).
Proof.
  split.
  - intro e. split; [apply pass_raise_inv|].
    intros (-> & d & rest & -> & Hm). now apply pass_unmarked_raises.
  - split.
    + intros (pg' & Hok). destruct ds as [|d rest]; [now left | right].
      exists d, rest. split; [reflexivity|].
      destruct (has_marker (wd_word d)) eqn:Hm; [reflexivity|].
      rewrite (pass_unmarked_raises pg d rest Hm) in Hok. discriminate.
    + intros [-> | (d & rest & -> & Hm)].
      * exists pg. reflexivity.
      * now apply marked_first_total.
Qed.

Lemma body_extents_drawn (st st' : Locals) (d : WordDiff) :
  extents_drawn self st -> run_body st d = Ok st' -> extents_drawn self st'.
Proof.
  intros Hinv Hb y v.
  destruct (body_cases _ _ _ Hb)
    as (p & Hp & _ & _ & [(_ & Hpg & ->) | (Hd & c & _ & Hpg & ->)]);
    rewrite Hpg.
  - intro Hget. destruct (Hinv y v Hget) as (tb & Hin & Htb).
    exists tb. split; [apply in_or_app; now left | exact Htb].
  - rewrite get_set.
    destruct (Qeq_bool (pl_text_pos_y p) y) eqn:E.
    + intros [= <-].
      exists (mkTextBox (pl_text_rect p) (pl_word_text p) fs c).
      split; [rewrite app_assoc; apply in_or_app; right; now left|].
      destruct (place_fields _ _ _ _ _ Hp) as (_ & _ & _ & Hr).
      apply Qeq_bool_iff in E. simpl. split; [now rewrite Hr|].
      split; [rewrite Hr; simpl; now rewrite E | exact Hd].
    + intro Hget. destruct (Hinv y v Hget) as (tb & Hin & Htb).
      exists tb. split; [apply in_or_app; now left | exact Htb].
Qed.

Lemma loop_extents_drawn (ds : list WordDiff) (st st' : Locals) :
  extents_drawn self st -> run_loop st ds = Ok st' -> extents_drawn self st'.
Proof.
  revert st. induction ds as [|d ds IH]; simpl; intros st Hinv Hl.
  - now injection Hl as <-.
  - destruct (run_body st d) as [st1|e] eqn:Hb; [|discriminate].
    simpl in Hl. eapply IH; [|exact Hl].
    eapply body_extents_drawn; eassumption.
Qed.

Lemma start_extents_drawn (pg : OutPage) : extents_drawn self (start pg).
Proof. intros y v. simpl. discriminate. Qed.

(** X7: every extent the dictionary holds is the right edge of a call
    that was really drawn: after any number of diffs of a pass, an extent
    stored for line [y] is the [x1] of a finite, non-empty rectangle on the
    page whose top is [y] minus the font size. *)
Theorem extent_is_edge_of_drawn_call (pg : OutPage) (ds : list WordDiff)
    (st : Locals) (y v : Q) :
  run_loop (start pg) ds = Ok st ->
  Py.get (current_x_position st) y = Some v ->
  exists tb,
    In tb (pg_textboxes (page st)) /\
    x1 (tb_rect tb) = v /\
    y0 (tb_rect tb) == y - fs /\
    is_infinite (tb_rect tb) = false /\
    x0 (tb_rect tb) < x1 (tb_rect tb) /\
    y0 (tb_rect tb) < y1 (tb_rect tb).
Proof.
  intros Hl Hget.
  destruct (loop_extents_drawn ds (start pg) st (start_extents_drawn pg)
              Hl y v Hget) as (tb & Hin & Hx & Hy & Hd).
  apply drawable_true in Hd. exists tb. tauto.
Qed.

End LabelPlacerFurther.

(** ** Further properties of the page and document comparison *)

Lemma truthy_app_one {A} (l : list A) (a : A) : truthy (l ++ [a]) = true.
Proof. now destruct l. Qed.

Section DocumentFurther.

Variable Page : Type.
Variable Text : Type.
Variable render_page_to_image : Page -> Q -> Q -> Pixmap.
Variable image_utils_overlay_differences :
  Image -> Image -> Z * Z * Z -> Q -> option Image.
Variable extract_text : Page -> Text.
Variable compare_text : Text -> Text -> list WordDiff.
Variable get_text_length : string -> Q -> Q.
Variable self : PDFComparer.

Local Abbreviation run_pair :=
  (compare_pair Page Text render_page_to_image image_utils_overlay_differences
                extract_text compare_text get_text_length self).
Local Abbreviation run_pairs :=
  (compare_pairs Page Text render_page_to_image
                 image_utils_overlay_differences
                 extract_text compare_text get_text_length self).
Local Abbreviation run_loop :=
  (compare_loop Page Text render_page_to_image image_utils_overlay_differences
                extract_text compare_text get_text_length self).
Local Abbreviation run_docs :=
  (compare_docs Page Text render_page_to_image image_utils_overlay_differences
                extract_text compare_text get_text_length self).
Local Abbreviation overlay_of :=
  (page_overlay Page render_page_to_image image_utils_overlay_differences
                self).
Local Abbreviation diffs_of :=
  (extract_and_compare_text Page Text extract_text compare_text).
Local Abbreviation differs :=
  (page_differs Page Text render_page_to_image image_utils_overlay_differences
                extract_text compare_text self).
Local Abbreviation images_of :=
  (render_pages_to_images Page render_page_to_image self).
Local Abbreviation run_pass := (add_text_differences get_text_length self).

(** The page that [new_page] and [insert_image] prepare for a pair. *)
Local Abbreviation fresh_page op np :=
  (mkOutPage (im_width (fst (images_of op np)))
             (im_height (fst (images_of op np))) (overlay_of op np) []).

(** The body of the page loop in one equation. *)
Lemma compare_pair_eq (op np : Page) (st : DocState) :
  run_pair op np st =
  if differs op np then
    pg <- run_pass (fresh_page op np) (diffs_of op np) ;;
    Ok (mkDocState true (output_doc st ++ [pg])%list)
  else Ok st.
Proof.
  unfold compare_pair, page_differs, page_overlay.
  destruct (images_of op np) as [old_image_pil new_image_pil]. simpl.
  unfold assemble.
  destruct (is_not_None _ || truthy _) eqn:Hd; [|reflexivity].
  assert (Hpg : match overlay_differences image_utils_overlay_differences
                        old_image_pil new_image_pil with
                | Some img =>
                    insert_image
                      (new_page (im_width old_image_pil)
                                (im_height old_image_pil)) img
                | None =>
                    new_page (im_width old_image_pil)
                             (im_height old_image_pil)
                end
                = mkOutPage (im_width old_image_pil)
                    (im_height old_image_pil)
                    (overlay_differences image_utils_overlay_differences
                       old_image_pil new_image_pil) []).
  { now destruct (overlay_differences _ _ _). }
  rewrite Hpg. now destruct (diffs_of op np).
Qed.

(** A page pair ends the loop only through a first word without
    marker. *)
Lemma compare_pair_raise (op np : Page) (st : DocState) (e : Py.exn) :
  run_pair op np st = Raise e <->
  e = UnboundLocalError "word_text" /\
  exists d rest, diffs_of op np = d :: rest /\ has_marker (wd_word d) = false.
Proof.
  rewrite compare_pair_eq. split.
  - destruct (differs op np); [|discriminate].
    destruct (run_pass _ _) as [pg|e'] eqn:Hpass; [discriminate|].
    simpl. intros [= <-]. now apply pass_raise_inv in Hpass.
  - intros (-> & d & rest & Hds & Hm).
    assert (Hd : differs op np = true).
    { unfold page_differs. rewrite Hds. apply orb_true_r. }
    rewrite Hd, Hds, pass_unmarked_raises by exact Hm. reflexivity.
Qed.

(** What a completed traversal of page pairs has built. *)
Lemma compare_pairs_ok (pairs : list (Page * Page)) (st st' : DocState) :
  run_pairs pairs st = Ok st' ->
  differences_found st' =
    differences_found st
    || existsb (fun pr => differs (fst pr) (snd pr)) pairs /\
  exists added,
    output_doc st' = (output_doc st ++ added)%list /\
    map page_summary added =
      map (fun pr => page_summary (fresh_page (fst pr) (snd pr)))
          (filter (fun pr => differs (fst pr) (snd pr)) pairs) /\
    Forall2 (fun pg pr =>
               run_pass (fresh_page (fst pr) (snd pr))
                        (diffs_of (fst pr) (snd pr)) = Ok pg)
            added (filter (fun pr => differs (fst pr) (snd pr)) pairs).
Proof.
  revert st. induction pairs as [|[op np] pairs IH]; simpl; intros st.
  - intros [= <-]. rewrite orb_false_r. split; [reflexivity|].
    exists []. rewrite app_nil_r. repeat split; constructor.
  - rewrite compare_pair_eq. destruct (differs op np) eqn:Hd.
    + destruct (run_pass (fresh_page op np) (diffs_of op np)) as [pg|e]
        eqn:Hpass; [|discriminate].
      simpl. intro Hrest. destruct (IH _ Hrest) as (Hfound & added & Hout & Hsum & Hall).
      simpl in Hfound, Hout. split; [now rewrite orb_true_r|].
      exists (pg :: added). rewrite Hout, <- app_assoc. simpl.
      split; [reflexivity|]. split.
      * rewrite Hsum. f_equal.
        destruct (add_text_differences_frame _ _ _ _ _ Hpass)
          as (H1 & H2 & H3).
        unfold page_summary. simpl in *. congruence.
      * constructor; assumption.
    + simpl. intro Hrest. destruct (IH _ Hrest) as (Hfound & added & Hout & Hsum & Hall).
      split; [exact Hfound|]. exists added. auto.
Qed.

(** Where a traversal of page pairs fails. *)
Lemma compare_pairs_raise (pairs : list (Page * Page)) (st : DocState)
    (e : Py.exn) :
  run_pairs pairs st = Raise e <->
  e = UnboundLocalError "word_text" /\
  exists op np d rest,
    In (op, np) pairs /\
    diffs_of op np = d :: rest /\ has_marker (wd_word d) = false.
Proof.
  revert st. induction pairs as [|[op np] pairs IH]; simpl; intro st.
  - split; [discriminate | intros (_ & ? & ? & ? & ? & [] & _)].
  - destruct (run_pair op np st) as [st1|e1] eqn:Hpair; simpl.
    + rewrite IH. split.
      * intros (-> & op' & np' & d & rest & Hin & Hds & Hm).
        split; [reflexivity|]. exists op', np', d, rest. auto.
      * intros (-> & op' & np' & d & rest & [[= <- <-] | Hin] & Hds & Hm).
        -- assert (Hr : run_pair op np st
                         = Raise (UnboundLocalError "word_text")).
           { apply compare_pair_raise. eauto. }
           congruence.
        -- split; [reflexivity|]. exists op', np', d, rest. auto.
    + apply compare_pair_raise in Hpair.
      destruct Hpair as (-> & d & rest & Hds & Hm). split.
      * intros [= <-]. split; [reflexivity|].
        exists op, np, d, rest. auto.
      * intros (-> & _). reflexivity.
Qed.

(** X8: when the page loop completes, the output document holds one page
    for each compared page pair that differs, in page order and none for
    the others: each such page has the size of the rendered old page and
    the overlay as its image, and is what the label pass over the pair's
    word diffs returns on that fresh page.  [differences_found] tells
    whether some compared pair differs. *)
Theorem output_pages_follow_differing_pairs (old_doc new_doc : list Page)
    (st : DocState) :
  run_loop old_doc new_doc = Ok st ->
  let differing :=
    filter (fun pr => differs (fst pr) (snd pr)) (combine old_doc new_doc) in
  differences_found st =
    existsb (fun pr => differs (fst pr) (snd pr)) (combine old_doc new_doc) /\
  map page_summary (output_doc st) =
    map (fun pr => (im_width (fst (images_of (fst pr) (snd pr))),
                    im_height (fst (images_of (fst pr) (snd pr))),
                    overlay_of (fst pr) (snd pr))) differing /\
  Forall2 (fun pg pr =>
             run_pass (fresh_page (fst pr) (snd pr))
                      (diffs_of (fst pr) (snd pr)) = Ok pg)
          (output_doc st) differing.
Proof.
  intros Hl differing. rewrite compare_loop_pairs in Hl.
  destruct (compare_pairs_ok _ _ _ Hl) as (Hfound & added & Hout & Hsum & Hall).
  simpl in Hfound, Hout. subst differing. rewrite Hout.
  repeat split; assumption.
Qed.

(** X9: [compare_pdfs] never returns a document without pages, and never
    more pages than the shorter input has: it returns [None] exactly when
    the output document is empty, so the truth test of [run_comparison]
    on the returned value is the test for [None]. *)
Theorem returned_document_never_empty (old_doc new_doc : list Page)
    (r : option (list OutPage)) :
  run_docs old_doc new_doc = Ok r ->
  doc_truthy r = is_not_None r /\
  forall doc, r = Some doc ->
    doc <> [] /\
    (List.length doc
     <= Nat.min (List.length old_doc) (List.length new_doc))%nat.
Proof.
  unfold compare_docs.
  destruct (run_loop old_doc new_doc) as [st|e] eqn:Hl; [|discriminate].
  simpl. intros [= <-]. rewrite compare_loop_pairs in Hl.
  destruct (compare_pairs_ok _ _ _ Hl) as (Hfound & added & Hout & Hsum & _).
  simpl in Hfound, Hout. subst added.
  assert (Hlen : List.length (output_doc st)
                 = List.length (filter (fun pr => differs (fst pr) (snd pr))
                                       (combine old_doc new_doc))).
  { rewrite <- (length_map page_summary), Hsum. apply length_map. }
  assert (Hne : differences_found st = true -> output_doc st <> []).
  { rewrite Hfound. intros He Hnil. rewrite Hnil in Hlen. simpl in Hlen.
    apply existsb_exists in He. destruct He as (pr & Hin & Hd).
    assert (Hin' : In pr (filter (fun pr => differs (fst pr) (snd pr))
                                 (combine old_doc new_doc))).
    { apply filter_In. auto. }
    destruct (filter _ _); [contradiction | discriminate]. }
  unfold finish. destruct (differences_found st) eqn:Hf.
  - split.
    + simpl. destruct (output_doc st); [now elim (Hne eq_refl) | reflexivity].
    + intros doc [= <-]. split; [auto|].
      rewrite Hlen, <- length_combine. apply filter_length_le.
  - split; [reflexivity | discriminate].
Qed.



End DocumentFurther.

(** ** Further properties of the batch run *)

Lemma slice_from_append (stem p : string) :
  Py.slice_from (String.length stem) (stem ++ p) = p.
Proof. induction stem as [|a stem IH]; simpl; [now destruct p | exact IH]. Qed.

Lemma slice_from_split (n : nat) (s : string) :
  (n <= String.length s)%nat ->
  exists stem, s = (stem ++ Py.slice_from n s)%string
               /\ String.length stem = n.
Proof.
  revert s. induction n as [|n IH]; intros s Hn.
  - exists "". split; [now destruct s | reflexivity].
  - destruct s as [|a s]; simpl in Hn; [lia|].
    destruct (IH s) as (stem & Hs & Hlen); [lia|].
    exists (String a stem). simpl. split; [now rewrite <- Hs | now rewrite Hlen].
Qed.

Lemma length_append (s p : string) :
  String.length (s ++ p) = (String.length s + String.length p)%nat.
Proof. induction s as [|a s IH]; simpl; [reflexivity | now rewrite IH]. Qed.

(** [endswith] holds of the strings that are some stem followed by the
    suffix. *)
Lemma endswith_append (s p : string) :
  Py.endswith s p = true <-> exists stem, s = (stem ++ p)%string.
Proof.
  unfold Py.endswith. rewrite andb_true_iff, String.eqb_eq, Nat.leb_le.
  split.
  - intros (Hs & Hlen).
    destruct (slice_from_split (String.length s - String.length p) s)
      as (stem & Hsplit & _); [lia|].
    exists stem. now rewrite Hs in Hsplit.
  - intros (stem & ->). rewrite length_append. split; [|lia].
    replace (String.length stem + String.length p - String.length p)%nat
      with (String.length stem) by lia.
    apply slice_from_append.
Qed.

Lemma lookup_In {A} (l : list (string * A)) (k : string) :
  In k (map fst l) -> exists a, lookup l k = Some a.
Proof.
  induction l as [|[k' a] l IH]; simpl; [intros []|].
  intro H. destruct (String.eqb k' k) eqn:E; [eauto|].
  destruct H as [H | H]; [|auto].
  subst k'. rewrite String.eqb_refl in E. discriminate.
Qed.

Lemma timed_files_app (a b : list event) :
  timed_files (a ++ b) = (timed_files a ++ timed_files b)%list.
Proof.
  induction a as [|ev a IH]; simpl; [reflexivity|].
  destruct ev; simpl; now rewrite ?IH.
Qed.

(** X11: [get_pdf_files] returns the entries of the directory whose name
    ends in ".pdf" (some stem followed by ".pdf", the comparison being
    case-sensitive), and nothing else; it fails exactly when the
    directory does not exist. *)
Theorem pdf_files_are_the_pdf_entries (Page : Type)
    (fs : FileSystem Page) (directory : string) :
  (forall files,
     get_pdf_files Page fs directory = Ok files ->
     exists entries,
       lookup fs directory = Some entries /\
       forall f, In f files <->
                 In f (map fst entries)
                 /\ exists stem, f = (stem ++ ".pdf")%string) /\
  (forall e,
     get_pdf_files Page fs directory = Raise e <->
     lookup fs directory = None /\ e = FileNotFoundError directory "").
Proof.
  unfold get_pdf_files, listdir, FileSystem, Document.
  destruct (lookup fs directory) as [entries|]; simpl; split.
  - intros files [= <-]. exists entries. split; [reflexivity|].
    intro f. rewrite filter_In, endswith_append. reflexivity.
  - intro e. split; [discriminate | intros ([=] & _)].
  - discriminate.
  - intro e. split; [intros [= <-]; auto | intros (_ & ->); reflexivity].
Qed.

Section BatchFurther.

Variable Page : Type.
Variable Text : Type.
Variable render_page_to_image : Page -> Q -> Q -> Pixmap.
Variable image_utils_overlay_differences :
  Image -> Image -> Z * Z * Z -> Q -> option Image.
Variable extract_text : Page -> Text.
Variable compare_text : Text -> Text -> list WordDiff.
Variable get_text_length : string -> Q -> Q.
Variable self : PDFComparer.
Variable fs : FileSystem Page.

(** [compare_pdfs] on the old file and the new file of the same name. *)
Local Abbreviation run_pdfs old_file :=
  (compare_pdfs Page Text render_page_to_image image_utils_overlay_differences
     extract_text compare_text get_text_length self fs
     (old_documents_dir self) old_file (new_documents_dir self) old_file).
Local Abbreviation run_files :=
  (files_loop Page Text render_page_to_image image_utils_overlay_differences
     extract_text compare_text get_text_length self fs).
Local Abbreviation run_batch :=
  (run_comparison Page Text render_page_to_image
     image_utils_overlay_differences
     extract_text compare_text get_text_length self fs).
Local Abbreviation new_exists old_file :=
  (path_exists Page fs (new_documents_dir self) old_file).

(** A file without counterpart cannot be compared. *)
Lemma missing_counterpart_fails (old_file : string) :
  new_exists old_file = false -> exists e, run_pdfs old_file = Raise e.
Proof.
  unfold path_exists, compare_pdfs, pymupdf_open, FileSystem, Document.
  intro H.
  destruct (lookup fs (old_documents_dir self)) as [olds|]; [|simpl; eauto].
  destruct (lookup olds old_file) as [[old_doc|e]|]; [|simpl; eauto ..].
  simpl.
  destruct (lookup fs (new_documents_dir self)) as [news|]; [|simpl; eauto].
  destruct (lookup news old_file); [discriminate | simpl; eauto].
Qed.

(** How far the loop over the files gets. *)
Lemma files_loop_progress (files : list string) (log log' : list event)
    (r : option Py.exn) :
  run_files files log = (log', r) ->
  exists done,
    timed_files log' = (timed_files log ++ done)%list /\
    (forall g, In g done ->
       new_exists g = true /\ exists out, run_pdfs g = Ok out) /\
    match r with
    | None => done = files
    | Some e => exists f rest,
                  files = (done ++ f :: rest)%list /\ run_pdfs f = Raise e
    end.
Proof.
  revert log. induction files as [|f files IH]; simpl; intros log.
  - intros [= <- <-]. exists []. rewrite app_nil_r.
    split; [reflexivity|]. split; [intros g [] | reflexivity].
  - destruct (run_pdfs f) as [out|e] eqn:Hf.
    + destruct (new_exists f) eqn:Hex.
      2: { destruct (missing_counterpart_fails f Hex) as (e & He).
           congruence. }
      simpl. intro Hrest. destruct (IH _ Hrest) as (done & Ht & Hdone & Hr).
      exists (f :: done). split.
      * rewrite Ht, timed_files_app.
        destruct (doc_truthy out); [destruct out|];
          rewrite ?timed_files_app; simpl;
          rewrite ?app_nil_r, <- ?app_assoc; reflexivity.
      * split.
        -- intros g [<- | Hg]; [split; eauto | auto].
        -- destruct r as [e|]; [|now subst].
           destruct Hr as (f' & rest & -> & Hf').
           exists f', rest. auto.
    + intros [= <- <-]. exists []. rewrite app_nil_r.
      split; [|split; [intros g []|]].
      * destruct (negb (new_exists f)); [|reflexivity].
        rewrite timed_files_app. simpl. now rewrite app_nil_r.
      * exists f, files. auto.
Qed.

(** The loop over the files only adds to the log. *)
Lemma files_loop_keeps_log (files : list string) (log log' : list event)
    (r : option Py.exn) :
  run_files files log = (log', r) -> forall ev, In ev log -> In ev log'.
Proof.
  revert log. induction files as [|f files IH]; simpl; intros log.
  - now intros [= <- <-].
  - destruct (run_pdfs f) as [out|e].
    + intros Hrest ev Hev. apply (IH _ Hrest).
      apply in_or_app. left.
      destruct (negb (new_exists f)), (doc_truthy out), out;
        repeat (apply in_or_app; left); assumption.
    + intros [= <- <-] ev Hev.
      destruct (negb (new_exists f)); [apply in_or_app; now left | exact Hev].
Qed.

(** Where each event that the loop over the files adds comes from. *)
Lemma files_loop_events (files : list string) (log log' : list event)
    (r : option Py.exn) :
  run_files files log = (log', r) ->
  forall ev, In ev log' ->
    In ev log \/
    match ev with
    | PrintNewFileNotFound f =>
        In f files /\ new_exists f = false /\
        exists e, r = Some e /\ run_pdfs f = Raise e
    | Save d f doc =>
        d = output_dir self /\
        exists g, In g files /\ f = ("diff_" ++ g)%string /\
                  run_pdfs g = Ok (Some doc) /\ doc <> []
    | PrintDifferencesFound d f =>
        d = output_dir self /\
        exists g, In g files /\ f = ("diff_" ++ g)%string
    | PrintNoDifferences g =>
        In g files /\ exists out, run_pdfs g = Ok out /\ doc_truthy out = false
    | PrintTimeTaken g => In g files
    | _ => False
    end.
Proof.
  revert log. induction files as [|f files IH]; simpl; intros log.
  - intros [= <- <-] ev Hev. now left.
  - destruct (run_pdfs f) as [out|e] eqn:Hf.
    + destruct (new_exists f) eqn:Hex.
      2: { destruct (missing_counterpart_fails f Hex) as (e & He).
           congruence. }
      simpl. intros Hrest ev Hev.
      destruct (IH _ Hrest ev Hev) as [Hin | Horigin].
      * apply in_app_or in Hin. destruct Hin as [Hin | [<- | []]];
          [|right; now left].
        destruct (doc_truthy out) eqn:Ht.
        -- destruct out as [doc|]; [|now left].
           apply in_app_or in Hin.
           destruct Hin as [Hin | [<- | [<- | []]]]; [now left | |].
           ++ right. split; [reflexivity|]. exists f.
              repeat split; auto. intros ->. discriminate.
           ++ right. split; [reflexivity|]. exists f. auto.
        -- apply in_app_or in Hin. destruct Hin as [Hin | [<- | []]];
             [now left|].
           right. split; [now left | eauto].
      * right. destruct ev; try exact Horigin.
        -- destruct Horigin as (Hin & Rest). split; [now right | exact Rest].
        -- destruct Horigin as (Hd & g & Hin & Rest).
           split; [exact Hd|]. exists g. split; [now right | exact Rest].
        -- destruct Horigin as (Hd & g & Hin & Rest).
           split; [exact Hd|]. exists g. split; [now right | exact Rest].
        -- destruct Horigin as (Hin & Rest). split; [now right | exact Rest].
        -- now right.
    + intros [= <- <-] ev Hev.
      destruct (new_exists f) eqn:Hex; simpl in Hev; [now left|].
      apply in_app_or in Hev. destruct Hev as [Hev | [<- | []]]; [now left|].
      right. split; [now left|]. split; [exact Hex | eauto].
Qed.

(** What the log holds for a file the loop has finished with. *)
Lemma files_loop_reports (files : list string) (log log' : list event) :
  run_files files log = (log', None) ->
  forall g, In g files ->
    exists out,
      run_pdfs g = Ok out /\
      if doc_truthy out
      then exists doc,
             out = Some doc /\
             In (Save (output_dir self) ("diff_" ++ g) doc) log'
      else In (PrintNoDifferences g) log'.
Proof.
  revert log. induction files as [|f files IH]; simpl; intros log;
    [intros _ g []|].
  destruct (run_pdfs f) as [out|e] eqn:Hf; [|discriminate].
  intros Hrest g [<- | Hg]; [|exact (IH _ Hrest g Hg)].
  exists out. split; [exact Hf|].
  pose proof (files_loop_keeps_log _ _ _ _ Hrest) as Hkeep.
  destruct (doc_truthy out) eqn:Ht.
  - destruct out as [doc|]; [|discriminate]. exists doc.
    split; [reflexivity|]. apply Hkeep.
    apply in_or_app. left. apply in_or_app. right. now left.
  - apply Hkeep. apply in_or_app. left. apply in_or_app. right. now left.
Qed.

Lemma files_loop_total (files : list string) (log : list event) :
  (forall g, In g files -> exists out, run_pdfs g = Ok out) ->
  exists log', run_files files log = (log', None).
Proof.
  revert log. induction files as [|f files IH]; simpl; intros log Hall;
    [eauto|].
  destruct (Hall f (or_introl eq_refl)) as (out & Hf). rewrite Hf.
  apply IH. intros g Hg. apply Hall. now right.
Qed.

(** The shape of the whole run. *)
Lemma run_comparison_cases (log : list event) (r : option Py.exn) :
  run_batch = (log, r) ->
  (exists e, get_pdf_files Page fs (old_documents_dir self) = Raise e /\
             log = [] /\ r = Some e) \/
  (exists old_files e,
     get_pdf_files Page fs (old_documents_dir self) = Ok old_files /\
     get_pdf_files Page fs (new_documents_dir self) = Raise e /\
     log = [] /\ r = Some e) \/
  (exists old_files new_files log0 log1,
     get_pdf_files Page fs (old_documents_dir self) = Ok old_files /\
     get_pdf_files Page fs (new_documents_dir self) = Ok new_files /\
     timed_files log0 = [] /\
     (forall ev, In ev log0 ->
        ev = PrintNoOldFiles (old_documents_dir self) \/
        ev = PrintNoNewFiles (new_documents_dir self)) /\
     run_files old_files log0 = (log1, r) /\
     log = match r with
           | None => (log1 ++ [PrintTotalTime])%list
           | Some _ => log1
           end).
Proof.
  unfold run_comparison.
  destruct (get_pdf_files Page fs (old_documents_dir self))
    as [old_files|e]; [|intros [= <- <-]; left; eauto].
  destruct (get_pdf_files Page fs (new_documents_dir self))
    as [new_files|e];
    [|intros [= <- <-]; right; left; exists old_files, e; auto].
  set (log0 := if negb (truthy new_files)
               then ((if negb (truthy old_files)
                      then [PrintNoOldFiles (old_documents_dir self)]
                      else [])
                     ++ [PrintNoNewFiles (new_documents_dir self)])%list
               else if negb (truthy old_files)
                    then [PrintNoOldFiles (old_documents_dir self)]
                    else []).
  destruct (run_files old_files log0) as [log1 r1] eqn:Hloop.
  intro H. right. right. exists old_files, new_files, log0, log1.
  split; [reflexivity|]. split; [reflexivity|].
  split; [|split; [|split]].
  - unfold log0.
    destruct (negb (truthy new_files)), (negb (truthy old_files)); reflexivity.
  - unfold log0. intros ev.
    destruct (negb (truthy new_files)), (negb (truthy old_files)); simpl;
      intuition.
  - destruct r1; injection H as <- <-; exact Hloop.
  - destruct r1; injection H as <- <-; reflexivity.
Qed.


(** X12: a run that completes has handled every PDF of the old directory
    once and in listing order: the timing lines of its log name exactly
    these files, each of them has a counterpart and was compared, the log
    holds the save of the returned document under "diff_" and the file
    name when the comparison returned one and the no-differences line
    when it did not, and the total-time line closes the log. *)
Theorem completed_run (log : list event) :
  run_batch = (log, None) ->
  exists old_files log1,
    get_pdf_files Page fs (old_documents_dir self) = Ok old_files /\
    log = (log1 ++ [PrintTotalTime])%list /\
    timed_files log = old_files /\
    forall g, In g old_files ->
      new_exists g = true /\
      exists out,
        run_pdfs g = Ok out /\
        if doc_truthy out
        then exists doc,
               out = Some doc /\
               In (Save (output_dir self) ("diff_" ++ g) doc) log
        else In (PrintNoDifferences g) log.
Proof.
  intro H. destruct (run_comparison_cases _ _ H)
    as [(e & _ & _ & [=]) | [(fl & e & _ & _ & _ & [=])
       | (old_files & new_files & log0 & log1 & Hold & _ & Ht0 & _ & Hloop
          & ->)]].
  exists old_files, log1. split; [exact Hold|]. split; [reflexivity|].
  destruct (files_loop_progress _ _ _ _ Hloop) as (done & Ht & Hdone & ->).
  split.
  - rewrite timed_files_app, Ht, Ht0. simpl. now rewrite app_nil_r.
  - intros g Hg. split; [apply (Hdone g Hg)|].
    destruct (files_loop_reports _ _ _ Hloop g Hg) as (out & Hout & Hlog).
    exists out. split; [exact Hout|].
    destruct (doc_truthy out).
    + destruct Hlog as (doc & -> & Hin). exists doc.
      split; [reflexivity | apply in_or_app; now left].
    + apply in_or_app. now left.
Qed.

(** X13: a run that is ended by an exception never prints the total
    time.  Either a directory could not be listed and nothing was
    printed, or the exception is that of [compare_pdfs] on one file: the
    files before it in listing order were compared and have their timing
    line, the file itself and all files after it have none. *)
Theorem aborted_run (log : list event) (e : Py.exn) :
  run_batch = (log, Some e) ->
  ~ In PrintTotalTime log /\
  ((log = [] /\
    (get_pdf_files Page fs (old_documents_dir self) = Raise e \/
     get_pdf_files Page fs (new_documents_dir self) = Raise e)) \/
   exists old_files done f rest,
     get_pdf_files Page fs (old_documents_dir self) = Ok old_files /\
     old_files = (done ++ f :: rest)%list /\
     timed_files log = done /\
     run_pdfs f = Raise e /\
     forall g, In g done -> exists out, run_pdfs g = Ok out).
Proof.
  intro H. destruct (run_comparison_cases _ _ H)
    as [(e' & Hold & -> & [= <-]) | [(fl & e' & _ & Hnew & -> & [= <-])
       | (old_files & new_files & log0 & log1 & Hold & _ & Ht0 & Hlog0
          & Hloop & ->)]].
  - split; [intros [] | left; auto].
  - split; [intros [] | left; auto].
  - split.
    + intro Hin.
      destruct (files_loop_events _ _ _ _ Hloop _ Hin) as [Hin0 | []].
      destruct (Hlog0 _ Hin0); discriminate.
    + right.
      destruct (files_loop_progress _ _ _ _ Hloop)
        as (done & Ht & Hdone & f & rest & -> & Hf).
      exists (done ++ f :: rest)%list, done, f, rest.
      rewrite Ht, Ht0. repeat split; auto.
      intros g Hg. apply (Hdone g Hg).
Qed.

(** X14: whatever a run saves is a document that [compare_pdfs] returned
    for a PDF of the old directory: it is saved in the output directory
    under "diff_" followed by the name of that file, and it has at least
    one page. *)
Theorem saved_documents (log : list event) (r : option Py.exn)
    (d f : string) (doc : list OutPage) :
  run_batch = (log, r) ->
  In (Save d f doc) log ->
  d = output_dir self /\
  doc <> [] /\
  exists old_files g,
    get_pdf_files Page fs (old_documents_dir self) = Ok old_files /\
    In g old_files /\
    f = ("diff_" ++ g)%string /\
    run_pdfs g = Ok (Some doc).
Proof.
  intros H Hin. destruct (run_comparison_cases _ _ H)
    as [(e & _ & -> & _) | [(fl & e & _ & _ & -> & _)
       | (old_files & new_files & log0 & log1 & Hold & _ & _ & Hlog0
          & Hloop & ->)]]; try contradiction.
  assert (Hin1 : In (Save d f doc) log1).
  { destruct r; [exact Hin|].
    apply in_app_or in Hin. destruct Hin as [Hin | [[=] | []]]. exact Hin. }
  destruct (files_loop_events _ _ _ _ Hloop _ Hin1)
    as [Hin0 | (-> & g & Hg & -> & Hrun & Hne)].
  - destruct (Hlog0 _ Hin0); discriminate.
  - split; [reflexivity|]. split; [exact Hne|]. exists old_files, g. auto.
Qed.

(** X15: the report of a missing counterpart is always the end of the
    run: whenever the log holds the line for a file, that file has no
    counterpart in the new directory and the run was ended by the
    exception of [compare_pdfs] on that very file. *)
Theorem missing_report_ends_run (log : list event) (r : option Py.exn)
    (f : string) :
  run_batch = (log, r) ->
  In (PrintNewFileNotFound f) log ->
  new_exists f = false /\
  exists e, r = Some e /\ run_pdfs f = Raise e.
Proof.
  intros H Hin. destruct (run_comparison_cases _ _ H)
    as [(e & _ & -> & _) | [(fl & e & _ & _ & -> & _)
       | (old_files & new_files & log0 & log1 & Hold & _ & _ & Hlog0
          & Hloop & ->)]]; try contradiction.
  assert (Hin1 : In (PrintNewFileNotFound f) log1).
  { destruct r; [exact Hin|].
    apply in_app_or in Hin. destruct Hin as [Hin | [[=] | []]]. exact Hin. }
  destruct (files_loop_events _ _ _ _ Hloop _ Hin1)
    as [Hin0 | (_ & Hex & Hr)].
  - destruct (Hlog0 _ Hin0); discriminate.
  - auto.
Qed.

(** With marked words, [compare_pdfs] on two files that open returns. *)
Lemma compare_pdfs_returns (old_dir old_file new_dir new_file : string)
    (old_doc new_doc : list Page) :
  differ_marks_words Page Text extract_text compare_text ->
  pymupdf_open Page fs old_dir old_file = Ok old_doc ->
  pymupdf_open Page fs new_dir new_file = Ok new_doc ->
  exists out,
    compare_pdfs Page Text render_page_to_image
      image_utils_overlay_differences extract_text compare_text
      get_text_length self fs old_dir old_file new_dir new_file = Ok out.
Proof.
  intros Hc Ho Hn. unfold compare_pdfs. rewrite Ho, Hn. simpl.
  unfold compare_docs. rewrite compare_loop_pairs.
  destruct (compare_pairs _ _ _ _ _ _ _ _ _ _) as [st|e] eqn:Hl;
    [simpl; eauto|].
  apply compare_pairs_raise in Hl.
  destruct Hl as (_ & op & np & d & rest & _ & Hds & Hm).
  pose proof (Hc op np) as Hall. rewrite Hds in Hall.
  inversion Hall; subst. congruence.
Qed.


(** A file that exists in both directories and does not open ends the
    run, with the exception of the open. *)
Lemma broken_file_ends_run (old_file : string) (rest : list string)
    (log : list event) (e : Py.exn) :
  new_exists old_file = true ->
  pymupdf_open Page fs (old_documents_dir self) old_file = Raise e ->
  run_files (old_file :: rest) log = (log, Some e).
Proof.
  intros Hex Ho. simpl. rewrite Hex. simpl.
  unfold compare_pdfs. now rewrite Ho.
Qed.

End BatchFurther.

(** ** The further properties on the sample data *)

Section SampleFurther.

Local Abbreviation sample_pass :=
  (add_text_differences Sample.measure Sample.comparer).
Local Abbreviation sample_loop :=
  (compare_loop Sample.Page Sample.Text Sample.render_page_to_image
     Sample.overlay_differences Sample.extract_text Sample.compare_text
     Sample.measure Sample.comparer).
Local Abbreviation sample_docs :=
  (compare_docs Sample.Page Sample.Text Sample.render_page_to_image
     Sample.overlay_differences Sample.extract_text Sample.compare_text
     Sample.measure Sample.comparer).
Local Abbreviation bare_docs :=
  (compare_docs Sample.Page Sample.Text Sample.render_page_to_image
     Sample.overlay_differences Sample.extract_text Sample.bare_compare_text
     Sample.measure Sample.comparer).
Local Abbreviation sample_run :=
  (run_comparison Sample.Page Sample.Text Sample.render_page_to_image
     Sample.overlay_differences Sample.extract_text Sample.compare_text
     Sample.measure Sample.comparer).
Local Abbreviation sample_pdfs fs f :=
  (compare_pdfs Sample.Page Sample.Text Sample.render_page_to_image
     Sample.overlay_differences Sample.extract_text Sample.compare_text
     Sample.measure Sample.comparer fs "./Old_Documents" f
     "./New_Documents" f).

Example sample_pass_page :
  sample_pass Sample.blank [Sample.hello; Sample.world]
  = Ok (page Sample.after_world).
Proof. reflexivity. Qed.

Example sample_loop_state :
  sample_loop Sample.old_doc Sample.new_doc
  = Ok (mkDocState true [Sample.diff_page]).
Proof. reflexivity. Qed.

Example sample_complete_log :
  sample_run Sample.fs_complete
  = ([Save "./Output" "diff_a.pdf" [Sample.diff_page];
      PrintDifferencesFound "./Output" "diff_a.pdf";
      PrintTimeTaken "a.pdf";
      PrintNoDifferences "b.pdf";
      PrintTimeTaken "b.pdf";
      PrintTotalTime],
     None).
Proof. reflexivity. Qed.

Lemma pass_only_appends_witness :
  pg_image (page Sample.after_world) = pg_image Sample.blank /\
  exists added,
    pg_textboxes (page Sample.after_world)
      = (pg_textboxes Sample.blank ++ added)%list /\
    (List.length added <= 2 * 2)%nat.
Proof.
  destruct (pass_only_appends Sample.measure Sample.comparer Sample.blank
              (page Sample.after_world) [Sample.hello; Sample.world] eq_refl)
    as (_ & _ & Himg & Hadded).
  split; assumption.
Defined.

Lemma pass_call_shape_witness :
  exists added,
    pg_textboxes (page Sample.after_world)
      = (pg_textboxes Sample.blank ++ added)%list /\
    forall tb, In tb added ->
      tb_fontsize tb = 16 /\
      (tb_color tb = green \/ tb_color tb = red \/ tb_color tb = black) /\
      exists d,
        In d [Sample.hello; Sample.world] /\
        y0 (tb_rect tb) = bbox_1 (wd_bbox d) * 2 - 16 /\
        y1 (tb_rect tb) = bbox_1 (wd_bbox d) * 2 + 16 * 2.
Proof.
  exact (pass_call_shape Sample.measure Sample.comparer Sample.blank
           (page Sample.after_world) [Sample.hello; Sample.world] eq_refl).
Defined.

Lemma label_right_of_extent_witness :
  90 <= x0 (pl_text_rect Sample.world_placement) /\
  forall a, In a (arrow_calls (pl_arrow Sample.world_placement)) ->
    x0 (tb_rect a) = 90 /\
    y0 (tb_rect a) = y0 (pl_text_rect Sample.world_placement) /\
    y1 (tb_rect a) = y1 (pl_text_rect Sample.world_placement) /\
    x0 (pl_text_rect Sample.world_placement)
      = x1 (tb_rect a) + Sample.measure " " 16.
Proof.
  apply (label_right_of_extent Sample.measure Sample.comparer
           Sample.after_hello Sample.world Sample.world_placement 90).
  - vm_compute. discriminate.
  - vm_compute. discriminate.
  - reflexivity.
  - reflexivity.
Defined.

Lemma other_lines_untouched_witness :
  Py.get (current_x_position Sample.after_world) 40
  = Py.get (current_x_position Sample.after_hello) 40.
Proof.
  apply (other_lines_untouched Sample.measure Sample.comparer
           Sample.after_hello Sample.after_world Sample.world 40).
  - reflexivity.
  - intro H. vm_compute in H. discriminate.
Defined.

Lemma unmarked_word_reuses_previous_witness :
  exists p st',
    place Sample.measure Sample.comparer Sample.after_hello Sample.unmarked
      = Ok p /\
    body Sample.measure Sample.comparer Sample.after_hello Sample.unmarked
      = Ok st' /\
    pl_word_text p = "hello" /\
    word_text st' = Some "hello" /\
    text_color st' = Some green.
Proof.
  destruct (unmarked_word_reuses_previous Sample.measure Sample.comparer
              Sample.after_hello Sample.unmarked "hello" green
              eq_refl eq_refl eq_refl)
    as (p & st' & Hp & Hb & Hw & _ & _ & Hwt & Hc).
  exists p, st'. auto.
Defined.

Lemma pass_fails_exactly_witness :
  sample_pass Sample.blank [Sample.unmarked; Sample.hello]
    = Raise (UnboundLocalError "word_text") /\
  exists pg', sample_pass Sample.blank [Sample.hello; Sample.unmarked] = Ok pg'.
Proof.
  split.
  - apply (proj1 (pass_fails_exactly Sample.measure Sample.comparer
                    Sample.blank [Sample.unmarked; Sample.hello])).
    split; [reflexivity|].
    exists Sample.unmarked, [Sample.hello]. split; reflexivity.
  - apply (proj2 (pass_fails_exactly Sample.measure Sample.comparer
                    Sample.blank [Sample.hello; Sample.unmarked])).
    right. exists Sample.hello, [Sample.unmarked]. split; reflexivity.
Defined.

Lemma extent_is_edge_of_drawn_call_witness :
  exists tb,
    In tb (pg_textboxes (page Sample.after_hello)) /\
    x1 (tb_rect tb) = 90 /\
    y0 (tb_rect tb) == 100 - 16 /\
    is_infinite (tb_rect tb) = false /\
    x0 (tb_rect tb) < x1 (tb_rect tb) /\
    y0 (tb_rect tb) < y1 (tb_rect tb).
Proof.
  exact (extent_is_edge_of_drawn_call Sample.measure Sample.comparer
           Sample.blank [Sample.hello] Sample.after_hello 100 90
           eq_refl eq_refl).
Defined.

Lemma output_pages_follow_differing_pairs_witness :
  map page_summary [Sample.diff_page]
  = [(1190%Z, 1684%Z, Some (mkImage 1190 1684 [Byte.x01]))] /\
  Forall2 (fun pg pr =>
             sample_pass
               (mkOutPage 1190 1684
                  (page_overlay Sample.Page Sample.render_page_to_image
                     Sample.overlay_differences Sample.comparer
                     (fst pr) (snd pr)) [])
               (extract_and_compare_text Sample.Page Sample.Text
                  Sample.extract_text Sample.compare_text (fst pr) (snd pr))
             = Ok pg)
          [Sample.diff_page] [(Sample.old_page, Sample.new_page)].
Proof.
  destruct (output_pages_follow_differing_pairs Sample.Page Sample.Text
              Sample.render_page_to_image Sample.overlay_differences
              Sample.extract_text Sample.compare_text Sample.measure
              Sample.comparer Sample.old_doc Sample.new_doc
              (mkDocState true [Sample.diff_page]) eq_refl)
    as (_ & Hsum & Hall).
  split; [exact Hsum | exact Hall].
Defined.

Lemma returned_document_never_empty_witness :
  doc_truthy (Some [Sample.diff_page]) = is_not_None (Some [Sample.diff_page])
  /\ [Sample.diff_page] <> []
  /\ (List.length [Sample.diff_page] <= Nat.min 5 3)%nat.
Proof.
  destruct (returned_document_never_empty Sample.Page Sample.Text
              Sample.render_page_to_image Sample.overlay_differences
              Sample.extract_text Sample.compare_text Sample.measure
              Sample.comparer Sample.old_doc Sample.new_doc
              (Some [Sample.diff_page]) eq_refl)
    as (Ht & Hdoc).
  destruct (Hdoc _ eq_refl) as (Hne & Hlen).
  split; [exact Ht | split; [exact Hne | exact Hlen]].
Defined.


Lemma pdf_files_are_the_pdf_entries_witness :
  exists entries,
    lookup Sample.fs_complete "./Old_Documents" = Some entries /\
    forall f, In f ["a.pdf"; "b.pdf"] <->
              In f (map fst entries)
              /\ exists stem, f = (stem ++ ".pdf")%string.
Proof.
  exact (proj1 (pdf_files_are_the_pdf_entries Sample.Page Sample.fs_complete
                  "./Old_Documents") ["a.pdf"; "b.pdf"] eq_refl).
Defined.

Lemma completed_run_witness :
  exists old_files log1,
    get_pdf_files Sample.Page Sample.fs_complete "./Old_Documents"
      = Ok old_files /\
    fst (sample_run Sample.fs_complete) = (log1 ++ [PrintTotalTime])%list /\
    timed_files (fst (sample_run Sample.fs_complete)) = old_files.
Proof.
  destruct (completed_run Sample.Page Sample.Text Sample.render_page_to_image
              Sample.overlay_differences Sample.extract_text
              Sample.compare_text Sample.measure Sample.comparer
              Sample.fs_complete (fst (sample_run Sample.fs_complete))
              eq_refl)
    as (old_files & log1 & Hold & Hlog & Ht & _).
  exists old_files, log1. auto.
Defined.

Lemma aborted_run_witness :
  ~ In PrintTotalTime (fst (sample_run Sample.fs)) /\
  (fst (sample_run Sample.fs) <> [] ->
   exists old_files done f rest,
     get_pdf_files Sample.Page Sample.fs "./Old_Documents" = Ok old_files /\
     old_files = (done ++ f :: rest)%list /\
     timed_files (fst (sample_run Sample.fs)) = done /\
     sample_pdfs Sample.fs f
       = Raise (FileNotFoundError "./New_Documents" "a.pdf")).
Proof.
  destruct (aborted_run Sample.Page Sample.Text Sample.render_page_to_image
              Sample.overlay_differences Sample.extract_text
              Sample.compare_text Sample.measure Sample.comparer
              Sample.fs (fst (sample_run Sample.fs))
              (FileNotFoundError "./New_Documents" "a.pdf") eq_refl)
    as (Hno & [(Hnil & _) | (old_files & done & f & rest & H1 & H2 & H3 & H4
                               & _)]).
  - split; [exact Hno | intro Hne; now elim Hne].
  - split; [exact Hno|]. intros _. exists old_files, done, f, rest. auto.
Defined.

Lemma saved_documents_witness :
  [Sample.diff_page] <> [] /\
  exists old_files g,
    get_pdf_files Sample.Page Sample.fs_complete "./Old_Documents"
      = Ok old_files /\
    In g old_files /\
    "diff_a.pdf" = ("diff_" ++ g)%string /\
    sample_pdfs Sample.fs_complete g = Ok (Some [Sample.diff_page]).
Proof.
  destruct (saved_documents Sample.Page Sample.Text
              Sample.render_page_to_image Sample.overlay_differences
              Sample.extract_text Sample.compare_text Sample.measure
              Sample.comparer Sample.fs_complete
              (fst (sample_run Sample.fs_complete)) None
              "./Output" "diff_a.pdf" [Sample.diff_page] eq_refl
              (or_introl eq_refl))
    as (_ & Hne & Hrest).
  split; [exact Hne | exact Hrest].
Defined.

Lemma missing_report_ends_run_witness :
  path_exists Sample.Page Sample.fs "./New_Documents" "a.pdf" = false /\
  exists e,
    snd (sample_run Sample.fs) = Some e /\
    sample_pdfs Sample.fs "a.pdf" = Raise e.
Proof.
  exact (missing_report_ends_run Sample.Page Sample.Text
           Sample.render_page_to_image Sample.overlay_differences
           Sample.extract_text Sample.compare_text Sample.measure
           Sample.comparer Sample.fs (fst (sample_run Sample.fs))
           (snd (sample_run Sample.fs)) "a.pdf" eq_refl (or_introl eq_refl)).
Defined.


(** An empty c.pdf in both directories: it is listed, it has its
    counterpart, and the open ends the run after a.pdf. *)
Example sample_run_empty_file :
  sample_run Sample.fs_empty_file
  = ([Save "./Output" "diff_a.pdf" [Sample.diff_page];
      PrintDifferencesFound "./Output" "diff_a.pdf";
      PrintTimeTaken "a.pdf"],
     Some (FileDataError "Cannot open empty file")).
Proof. reflexivity. Qed.

End SampleFurther.
